(** * 2024Waffle: swerve module steering, chassis kinematics and pose fusion

    A shallow embedding of [src/subsystems/swerve.py] and
    [src/subsystems/drivetrain.py].

    Python floats are idealised as exact numbers.  The steering code of a
    single module only adds, multiplies, divides and compares, so it is
    embedded over the rationals [Q] and every definition evaluates.  The
    chassis code goes through square roots and trigonometry and is
    embedded over the reals [R].  Rounding of binary64 arithmetic is not
    modelled anywhere. *)

From Stdlib Require Import ZArith QArith Qabs Qround Qminmax Bool List Lia.
From Stdlib Require Import Reals Psatz.
From Equations Require Import Equations.

(** ** Rounding helpers on [Q] *)

Module QAux.
Local Open Scope Q_scope.

Lemma inject_Z_sub (a b : Z) : inject_Z (a - b) = inject_Z a - inject_Z b.
Proof. unfold Z.sub, Qminus. now rewrite inject_Z_plus, inject_Z_opp. Qed.

Lemma ceil_pos (x : Q) : 0 < x -> (0 < Qceiling x)%Z.
Proof.
intros H. rewrite Zlt_Qlt. change (inject_Z 0) with 0.
eapply Qlt_le_trans; [exact H | apply Qle_ceiling].
Qed.

Lemma ceil_shift (x : Q) : (Qceiling (x - 360) <= Qceiling x - 360)%Z.
Proof.
rewrite <- (Qceiling_Z (Qceiling x - 360)).
apply Qceiling_resp_le.
rewrite inject_Z_sub. pose proof (Qle_ceiling x).
change (inject_Z 360) with 360. lra.
Qed.

(** An integer strictly inside an open interval of length one around 0 is 0. *)
Lemma Z_between (k : Z) : -1 < inject_Z k -> inject_Z k < 1 -> k = 0%Z.
Proof.
change (-1) with (inject_Z (-1)). change 1 with (inject_Z 1).
rewrite <- !Zlt_Qlt. lia.
Qed.

Lemma Z_le_Q (a b : Z) : (a <= b)%Z -> inject_Z a <= inject_Z b.
Proof. now rewrite <- Zle_Qle. Qed.

End QAux.

(** ** [SwerveModule] of swerve.py, over [Q] *)

Module Steering.
Import QAux.
Local Open Scope Q_scope.

(** [math.pi]: the binary64 number Python exposes under that name. *)
Definition math_pi : Q := 884279719003555 # 281474976710656.

(** Python's [int(x)] on a float: truncation towards zero. *)
Definition py_int (x : Q) : Z :=
  if Qlt_le_dec x 0 then Qceiling x else Qfloor x.

(** Python's [x % 360] on floats: the result takes the sign of the divisor. *)
Definition py_mod360 (x : Q) : Q := x - 360 * inject_Z (Qfloor (x / 360)).

(** The representative of [x] modulo 360 that lies in (-180, 180]. *)
Definition wrap180 (x : Q) : Q := x - 360 * inject_Z (Qceiling ((x - 180) / 360)).

(** [wpimath.geometry.Rotation2d], seen through [fromDegrees] and
    [degrees()], the only two views the module code takes of it.  The
    value given to [fromDegrees] is kept as it is, not wrapped. *)
Record Rotation2d := fromDegrees { degrees : Q }.

(** Modelled from the spec: [Rotation2d.__sub__] and [Rotation2d.__add__]
    belong to wpimath and are not under src/.  They compose rotations, so
    the angle of the result is the wrapped one, in (-180, 180]. *)
Definition Rotation2d_sub (a b : Rotation2d) : Rotation2d :=
  fromDegrees (wrap180 (degrees a - degrees b)).

Definition Rotation2d_add (a b : Rotation2d) : Rotation2d :=
  fromDegrees (wrap180 (degrees a + degrees b)).

(** [wpimath.kinematics.SwerveModuleState]. *)
Record SwerveModuleState := { speed : Q; angle : Rotation2d }.

(** Modelled from the spec: [SwerveModuleState.optimize] belongs to wpimath
    and is not under src/.  Section 4.1 of the spec: the target angle is
    replaced by its antipodal angle (rotated by 180 degrees), paired with
    the negated speed, when that requires less rotation from the current
    angle, that is when the wrapped difference exceeds 90 degrees. *)
Definition optimize (desiredState : SwerveModuleState) (currentAngle : Rotation2d)
  : SwerveModuleState :=
  let delta := Rotation2d_sub (angle desiredState) currentAngle in
  if Qlt_le_dec 90 (Qabs (degrees delta)) then
    {| speed := - speed desiredState;
       angle := Rotation2d_add (angle desiredState) (fromDegrees 180) |}
  else desiredState.

(** The last demand given to a motor controller through [set]. *)
Inductive Demand :=
| Neutral
| PercentOutput (output arbitraryFeedForward : Q)
| MotionMagic (target : Q).

(** What the module code reads from and writes to a [TalonFX]. *)
Record TalonFX := {
  selectedSensorPosition : Q;
  selectedSensorVelocity : Q;
  demand : Demand;
  simIntegratedSensorRawPosition : Z
}.

Definition TalonFX_set (t : TalonFX) (d : Demand) : TalonFX :=
  {| selectedSensorPosition := selectedSensorPosition t;
     selectedSensorVelocity := selectedSensorVelocity t;
     demand := d;
     simIntegratedSensorRawPosition := simIntegratedSensorRawPosition t |}.

Definition TalonFX_setSimRaw (t : TalonFX) (p : Z) : TalonFX :=
  {| selectedSensorPosition := selectedSensorPosition t;
     selectedSensorVelocity := selectedSensorVelocity t;
     demand := demand t;
     simIntegratedSensorRawPosition := p |}.

Record SwerveModule := {
  directionMotor : TalonFX;
  driveMotor : TalonFX;
  arbFF : Q;
  simDrivePos : Q
}.

(** The [while targetAngleDist > 180: targetAngleDist -= 360] loop of
    [changeDirection].  It ends because every turn lowers the ceiling of
    [t - 180] by 360. *)
Equations? unwind (t : Q) : Q by wf (Z.to_nat (Qceiling (t - 180))) lt :=
  unwind t with Qlt_le_dec 180 t => {
    | left _ => unwind (t - 360)
    | right _ => t }.
Proof.
assert (H1 : (0 < Qceiling (t - 180))%Z) by (apply ceil_pos; lra).
assert (H2 : (Qceiling (t - 360 - 180) <= Qceiling (t - 180) - 360)%Z).
{ pose proof (ceil_shift (t - 180)) as H.
  assert (E : t - 360 - 180 == t - 180 - 360) by ring.
  rewrite E. exact H. }
lia.
Qed.

(** What the distance computation of [changeDirection] yields. *)
Definition targetAngleDist (angleDiff : Q) : Q :=
  if Qlt_le_dec 180 (Qabs angleDiff) then Qabs (unwind (Qabs angleDiff)) else Qabs angleDiff.

(** The direction test of [changeDirection]: the difference brought into [0, 360). *)
Definition normalizedDiff (angleDiff : Q) : Q :=
  if Qlt_le_dec angleDiff 0 then py_mod360 angleDiff
  else if Qlt_le_dec angleDiff 360 then angleDiff
  else py_mod360 angleDiff.

Section Constants.

(** constants.py is not under src/: its values are parameters. *)
Variable kGearRatio : Q.   (* Motor.kGearRatio *)
Variable kWheelSize : Q.   (* Larry.kWheelSize *)
Variable kMaxSpeed : Q.    (* Larry.kMaxSpeed *)

(** The steering angle, in degrees, that a direction sensor reading stands for. *)
Definition sensorDegrees (position : Q) : Q :=
  position / kGearRatio * (360 / 2048).

Definition getAngle (m : SwerveModule) : Rotation2d :=
  fromDegrees (sensorDegrees (selectedSensorPosition (directionMotor m))).

Definition getState (m : SwerveModule) : SwerveModuleState :=
  let speed := selectedSensorVelocity (driveMotor m) / kGearRatio * 10 * kWheelSize * math_pi in
  let rotation := selectedSensorPosition (directionMotor m) / kGearRatio * (360 / 2048) in
  {| speed := speed; angle := fromDegrees rotation |}.

(** The body of [changeDirection] up to the two calls on the motor:
    the position, in sensor units before the gear ratio, to steer to. *)
Definition finalPos (m : SwerveModule) (rotation : Rotation2d) : Q :=
  let angleDiff := degrees rotation - degrees (getAngle m) in
  let targetAngleDist := Qabs angleDiff in
  let targetAngleDist :=
    if Qlt_le_dec 180 targetAngleDist then Qabs (unwind targetAngleDist)
    else targetAngleDist in
  let changeInTalonUnits := targetAngleDist / (360 / 2048) in
  let angleDiff :=
    if Qlt_le_dec angleDiff 0 then py_mod360 angleDiff
    else if Qlt_le_dec angleDiff 360 then angleDiff
    else py_mod360 angleDiff in
  let finalPos := selectedSensorPosition (directionMotor m) / kGearRatio in
  if Qlt_le_dec 180 angleDiff then finalPos - changeInTalonUnits
  else finalPos + changeInTalonUnits.

Definition changeDirection (m : SwerveModule) (rotation : Rotation2d) : SwerveModule :=
  let p := finalPos m rotation in
  let dir := TalonFX_set (directionMotor m) (MotionMagic (p * kGearRatio)) in
  let dir := TalonFX_setSimRaw dir (py_int (p * kGearRatio)) in
  {| directionMotor := dir;
     driveMotor := driveMotor m;
     arbFF := arbFF m;
     simDrivePos := simDrivePos m |}.

Definition setDesiredState (m : SwerveModule) (desiredState : SwerveModuleState)
  (optimizeFlag : bool) : SwerveModule :=
  let currentState := getState m in
  let desiredState :=
    if optimizeFlag then optimize desiredState (angle currentState)
    else desiredState in
  let ff := if Qlt_le_dec (speed desiredState) 0 then - arbFF m else arbFF m in
  let m1 :=
    {| directionMotor := directionMotor m;
       driveMotor :=
         TalonFX_set (driveMotor m)
           (PercentOutput (speed desiredState / kMaxSpeed) ff);
       arbFF := arbFF m;
       simDrivePos := simDrivePos m |} in
  changeDirection m1 (angle desiredState).

(** The position the direction motor was last told to reach; a motor
    that was given no position keeps the one it has. *)
Definition steeringTarget (m : SwerveModule) : Q :=
  match demand (directionMotor m) with
  | MotionMagic t => t
  | _ => selectedSensorPosition (directionMotor m)
  end.

(** The steering rotation, in degrees, between the angle of module [m]
    and the angle at the target that [m'] holds. *)
Definition commandedRotation (m m' : SwerveModule) : Q :=
  sensorDegrees (steeringTarget m') - degrees (getAngle m).

(** The shortest angular distance between two angles in degrees. *)
Definition angularDistance (a b : Q) : Q := Qabs (wrap180 (a - b)).

End Constants.

(** *** Concrete modules *)

(** A steering gear ratio of 12.8, a 0.1 m wheel, 4 m/s of top speed. *)
Definition gear : Q := 64 # 5.
Definition wheel : Q := 1 # 10.
Definition topSpeed : Q := 4.

(** A module at rest whose direction sensor reads [position]. *)
Definition moduleAtSensor (position : Q) : SwerveModule :=
  {| directionMotor :=
       {| selectedSensorPosition := position; selectedSensorVelocity := 0;
          demand := Neutral; simIntegratedSensorRawPosition := 0 |};
     driveMotor :=
       {| selectedSensorPosition := 0; selectedSensorVelocity := 0;
          demand := Neutral; simIntegratedSensorRawPosition := 0 |};
     arbFF := 1 # 20;
     simDrivePos := 0 |}.

(** The module steered to 170 degrees: 170 / 360 * 2048 * 12.8 sensor units. *)
Definition moduleAt170 : SwerveModule := moduleAtSensor (557056 # 45).

(** *** The rest of [SwerveModule]: sensors, resets and simulation *)

(** [wpimath.kinematics.SwerveModulePosition]. *)
Record SwerveModulePosition := { distance : Q; positionAngle : Rotation2d }.

Definition TalonFX_setSelectedSensorPosition (t : TalonFX) (p : Q) : TalonFX :=
  {| selectedSensorPosition := p;
     selectedSensorVelocity := selectedSensorVelocity t;
     demand := demand t;
     simIntegratedSensorRawPosition := simIntegratedSensorRawPosition t |}.

Section Sensors.

Variable kGearRatio : Q.   (* Motor.kGearRatio *)
Variable kWheelSize : Q.   (* Larry.kWheelSize *)
Variable isReal : bool.    (* RobotBase.isReal() *)

(** [resetSensorPosition], with what the CANCoder reads
    ([turningEncoder.getAbsolutePosition()], in degrees) as an input. *)
Definition resetSensorPosition (m : SwerveModule) (absolutePosition : Q) : SwerveModule :=
  let pos := - absolutePosition * (2048 / 360) in
  {| directionMotor :=
       TalonFX_setSelectedSensorPosition (directionMotor m) (kGearRatio * pos);
     driveMotor := driveMotor m;
     arbFF := arbFF m;
     simDrivePos := simDrivePos m |}.

Definition resetPositions (m : SwerveModule) : SwerveModule :=
  {| directionMotor := TalonFX_setSelectedSensorPosition (directionMotor m) 0;
     driveMotor := TalonFX_setSelectedSensorPosition (driveMotor m) 0;
     arbFF := arbFF m;
     simDrivePos := simDrivePos m |}.

Definition getPosition (m : SwerveModule) : SwerveModulePosition :=
  if negb isReal then
    {| distance := simDrivePos m; positionAngle := getAngle kGearRatio m |}
  else
    {| distance :=
         (selectedSensorPosition (driveMotor m) / kGearRatio) * (kWheelSize * math_pi);
       positionAngle := getAngle kGearRatio m |}.

Definition simulationPeriodic (m : SwerveModule) : SwerveModule :=
  {| directionMotor := directionMotor m;
     driveMotor := driveMotor m;
     arbFF := arbFF m;
     simDrivePos :=
       simDrivePos m
       + (selectedSensorVelocity (driveMotor m) / 10) * (1 / kGearRatio)
         * (kWheelSize * math_pi) |}.

(** The direction motor arrives: its sensor reads the position it was
    last told to reach. *)
Definition arrive (m : SwerveModule) : SwerveModule :=
  {| directionMotor :=
       TalonFX_setSelectedSensorPosition (directionMotor m) (steeringTarget m);
     driveMotor := driveMotor m;
     arbFF := arbFF m;
     simDrivePos := simDrivePos m |}.

End Sensors.

(** A module that rolls: its drive sensor reads 2048 units per 100 ms. *)
Definition rollingModule : SwerveModule :=
  {| directionMotor := directionMotor (moduleAtSensor 0);
     driveMotor :=
       {| selectedSensorPosition := 0; selectedSensorVelocity := 2048;
          demand := Neutral; simIntegratedSensorRawPosition := 0 |};
     arbFF := 1 # 20;
     simDrivePos := 0 |}.

(** The same module 100 ms later. *)
Definition rolledModule : SwerveModule :=
  {| directionMotor := directionMotor (moduleAtSensor 0);
     driveMotor :=
       {| selectedSensorPosition := 2048; selectedSensorVelocity := 2048;
          demand := Neutral; simIntegratedSensorRawPosition := 0 |};
     arbFF := 1 # 20;
     simDrivePos := 0 |}.

(** *** Wrapping and rounding facts *)

Lemma wrap180_bounds (x : Q) : -180 < wrap180 x /\ wrap180 x <= 180.
Proof.
unfold wrap180.
pose proof (Qle_ceiling ((x - 180) / 360)) as Hle.
pose proof (Qceiling_lt ((x - 180) / 360)) as Hlt.
rewrite inject_Z_sub in Hlt. change (inject_Z 1) with 1 in Hlt.
assert (E : 360 * ((x - 180) / 360) == x - 180) by (field; discriminate).
generalize dependent (inject_Z (Qceiling ((x - 180) / 360))).
generalize dependent ((x - 180) / 360).
intros q E c Hle Hlt. split; lra.
Qed.

Lemma wrap180_congr (x : Q) : exists k : Z, wrap180 x == x - 360 * inject_Z k.
Proof. exists (Qceiling ((x - 180) / 360)). reflexivity. Qed.

(** The wrapped angle is the only representative in (-180, 180]. *)
Lemma wrap180_unique (x y : Q) (k : Z) :
  -180 < y -> y <= 180 -> y == x - 360 * inject_Z k -> wrap180 x == y.
Proof.
intros Hlo Hhi Hy.
destruct (wrap180_bounds x) as [Wlo Whi].
destruct (wrap180_congr x) as [c Hc].
assert (Hk : (c - k = 0)%Z).
{ apply Z_between; rewrite inject_Z_sub;
  generalize dependent (inject_Z c); generalize dependent (inject_Z k);
  generalize dependent (wrap180 x); intros; lra. }
assert (c = k) by lia. subst c. rewrite Hc, Hy. reflexivity.
Qed.

Lemma wrap180_id (x : Q) : -180 < x -> x <= 180 -> wrap180 x == x.
Proof.
intros Hlo Hhi. apply (wrap180_unique x x 0); try assumption.
change (inject_Z 0) with 0. ring.
Qed.

#[global] Instance wrap180_Proper : Proper (Qeq ==> Qeq) wrap180.
Proof.
intros x y E. unfold wrap180.
assert (E' : (x - 180) / 360 == (y - 180) / 360) by (rewrite E; reflexivity).
rewrite (Qceiling_comp _ _ E'), E. reflexivity.
Qed.

Lemma py_mod360_bounds (x : Q) : 0 <= py_mod360 x /\ py_mod360 x < 360.
Proof.
unfold py_mod360.
pose proof (Qfloor_le (x / 360)) as Hle.
pose proof (Qlt_floor (x / 360)) as Hlt.
rewrite inject_Z_plus in Hlt. change (inject_Z 1) with 1 in Hlt.
assert (E : 360 * (x / 360) == x) by (field; discriminate).
generalize dependent (inject_Z (Qfloor (x / 360))).
generalize dependent (x / 360).
intros q E c Hle Hlt. split; lra.
Qed.

Lemma py_mod360_congr (x : Q) : exists k : Z, py_mod360 x == x - 360 * inject_Z k.
Proof. exists (Qfloor (x / 360)). reflexivity. Qed.

(** The loop leaves a value at most 180 as it is, and brings a larger one
    into (-180, 180] by whole turns. *)
Lemma unwind_small (t : Q) : t <= 180 -> unwind t = t.
Proof.
intros H. rewrite unwind_equation_1. destruct (Qlt_le_dec 180 t) as [L|L]; simpl.
- exfalso. lra.
- reflexivity.
Qed.

Lemma unwind_spec (t : Q) :
  unwind t <= 180 /\ (-180 < t -> -180 < unwind t) /\
  exists k : Z, unwind t == t - 360 * inject_Z k.
Proof.
funelim (unwind t).
- destruct H as (Hhi & Hlo & k & Hk). split; [exact Hhi|]. split.
  + intros _. apply Hlo. lra.
  + exists (k + 1)%Z. rewrite Hk, inject_Z_plus. change (inject_Z 1) with 1. ring.
- split; [assumption|]. split; [tauto|]. exists 0%Z. change (inject_Z 0) with 0. ring.
Qed.

(** *** The steering step of [changeDirection] *)

Lemma targetAngleDist_wrap (d : Q) : targetAngleDist d == Qabs (wrap180 d).
Proof.
unfold targetAngleDist.
destruct (Qlt_le_dec 180 (Qabs d)) as [L|L].
- destruct (unwind_spec (Qabs d)) as (Hhi & Hlo & k & Hk).
  assert (Hlo' : -180 < unwind (Qabs d)) by (apply Hlo; lra).
  clear Hlo.
  destruct (Qlt_le_dec d 0) as [N|P].
  + (* d < 0 : |d| = -d *)
    assert (Ea : Qabs d == - d) by (apply Qabs_neg; lra).
    destruct (Qlt_le_dec (unwind (Qabs d)) 180) as [S|S].
    * assert (W : wrap180 d == - unwind (Qabs d)).
      { apply (wrap180_unique d _ (- k)); try lra.
        rewrite inject_Z_opp. lra. }
      rewrite W, Qabs_opp. reflexivity.
    * assert (U : unwind (Qabs d) == 180) by lra.
      assert (W : wrap180 d == 180).
      { apply (wrap180_unique d _ (- k - 1)); try lra.
        rewrite inject_Z_sub, inject_Z_opp. change (inject_Z 1) with 1. lra. }
      rewrite W, U. reflexivity.
  + assert (Ea : Qabs d == d) by (apply Qabs_pos; lra).
    assert (W : wrap180 d == unwind (Qabs d)).
    { apply (wrap180_unique d _ k); try lra. }
    rewrite W. reflexivity.
- apply Qabs_Qle_condition in L. destruct L as [L1 L2].
  destruct (Qlt_le_dec (-180) d) as [S|S].
  + rewrite (wrap180_id d); [reflexivity| lra | lra].
  + assert (E : d == -180) by lra.
    assert (W : wrap180 d == 180).
    { apply (wrap180_unique d _ (-1)); try lra. change (inject_Z (-1)) with (-1). lra. }
    rewrite W, E. reflexivity.
Qed.

Lemma normalizedDiff_spec (d : Q) :
  0 <= normalizedDiff d /\ normalizedDiff d < 360 /\
  exists k : Z, normalizedDiff d == d - 360 * inject_Z k.
Proof.
unfold normalizedDiff.
destruct (Qlt_le_dec d 0); [|destruct (Qlt_le_dec d 360)].
- destruct (py_mod360_bounds d). split; [|split]; try assumption. apply py_mod360_congr.
- split; [|split]; try assumption. exists 0%Z. change (inject_Z 0) with 0. ring.
- destruct (py_mod360_bounds d). split; [|split]; try assumption. apply py_mod360_congr.
Qed.

(** The signed change that [changeDirection] applies, in degrees. *)
Lemma signed_change_wrap (d : Q) :
  (if Qlt_le_dec 180 (normalizedDiff d) then - targetAngleDist d else targetAngleDist d)
  == wrap180 d.
Proof.
pose proof (targetAngleDist_wrap d) as T.
destruct (normalizedDiff_spec d) as (Hlo & Hhi & k & Hk).
destruct (Qlt_le_dec 180 (normalizedDiff d)) as [L|L].
- assert (W : wrap180 d == normalizedDiff d - 360).
  { apply (wrap180_unique d _ (k + 1)); try lra.
    rewrite inject_Z_plus. change (inject_Z 1) with 1. lra. }
  rewrite T, W. rewrite Qabs_neg by lra. ring.
- assert (W : wrap180 d == normalizedDiff d).
  { apply (wrap180_unique d _ k); lra. }
  rewrite T, W. rewrite Qabs_pos by lra. reflexivity.
Qed.

Lemma finalPos_spec (g : Q) (m : SwerveModule) (r : Rotation2d) :
  finalPos g m r ==
  selectedSensorPosition (directionMotor m) / g
  + wrap180 (degrees r - degrees (getAngle g m)) / (360 / 2048).
Proof.
unfold finalPos.
set (d := degrees r - degrees (getAngle g m)).
change (if Qlt_le_dec 180 (Qabs d) then Qabs (unwind (Qabs d)) else Qabs d)
  with (targetAngleDist d).
change (if Qlt_le_dec d 0 then py_mod360 d
        else if Qlt_le_dec d 360 then d else py_mod360 d)
  with (normalizedDiff d).
pose proof (signed_change_wrap d) as S.
generalize (selectedSensorPosition (directionMotor m) / g). intros p.
destruct (Qlt_le_dec 180 (normalizedDiff d)); rewrite <- S; field.
Qed.




(** No representative of an angle is nearer to 0 than the wrapped one. *)
Lemma wrap180_shortest (x : Q) (k : Z) : Qabs (wrap180 x) <= Qabs (x - 360 * inject_Z k).
Proof.
destruct (wrap180_bounds x) as [Lo Hi].
destruct (wrap180_congr x) as [c Hc].
assert (Hw : Qabs (wrap180 x) <= 180) by (apply Qabs_Qle_condition; lra).
assert (E : x - 360 * inject_Z k == wrap180 x + 360 * inject_Z (c - k)).
{ rewrite inject_Z_sub, Hc. ring. }
rewrite E.
assert (T : (c - k = 0 \/ 1 <= c - k \/ c - k <= -1)%Z) by lia.
destruct T as [T|[T|T]].
- rewrite T. change (inject_Z 0) with 0.
  assert (E0 : wrap180 x + 360 * 0 == wrap180 x) by ring.
  rewrite E0. lra.
- apply Z_le_Q in T. change (inject_Z 1) with 1 in T.
  generalize dependent (inject_Z (c - k)). intros z _ T.
  rewrite (Qabs_pos (wrap180 x + 360 * z)) by lra. lra.
- apply Z_le_Q in T. change (inject_Z (-1)) with (-1) in T.
  generalize dependent (inject_Z (c - k)). intros z _ T.
  rewrite (Qabs_neg (wrap180 x + 360 * z)) by lra. lra.
Qed.

(** *** What the module commands *)

Section Properties.

Variable kGearRatio : Q.
Variable kWheelSize : Q.
Variable kMaxSpeed : Q.

(** Python raises on a division by zero; the gear ratio divides every
    sensor reading. *)
Hypothesis gear_nonzero : ~ kGearRatio == 0.

Lemma sensorDegrees_target (p : Q) :
  sensorDegrees kGearRatio (p * kGearRatio) == p * (360 / 2048).
Proof. unfold sensorDegrees. field. exact gear_nonzero. Qed.

Lemma commandedRotation_changeDirection (m : SwerveModule) (rotation : Rotation2d) :
  commandedRotation kGearRatio m (changeDirection kGearRatio m rotation)
  == wrap180 (degrees rotation - degrees (getAngle kGearRatio m)).
Proof.
unfold commandedRotation, changeDirection, steeringTarget. cbn.
rewrite sensorDegrees_target, finalPos_spec. cbn.
unfold sensorDegrees. field. exact gear_nonzero.
Qed.

Lemma commandedRotation_setDesiredState (m : SwerveModule) (s : SwerveModuleState) (o : bool) :
  commandedRotation kGearRatio m (setDesiredState kGearRatio kWheelSize kMaxSpeed m s o)
  == wrap180 (degrees (angle (if o then optimize s (getAngle kGearRatio m) else s))
              - degrees (getAngle kGearRatio m)).
Proof.
unfold setDesiredState.
set (s' := if o then optimize s (angle (getState kGearRatio kWheelSize m)) else s).
set (m1 := {| directionMotor := directionMotor m; driveMotor := _; arbFF := arbFF m; simDrivePos := simDrivePos m |}).
change (commandedRotation kGearRatio m (changeDirection kGearRatio m1 (angle s')))
  with (commandedRotation kGearRatio m1 (changeDirection kGearRatio m1 (angle s'))).
rewrite commandedRotation_changeDirection. reflexivity.
Qed.

(** C5. For every target rotation and every current module angle,
    unwrapped ones included, the rotation that [changeDirection] commands
    is the angle difference brought into (-180, 180]: it differs from the
    raw difference by whole turns, its magnitude is at most 180 degrees,
    it is the 360-degree complement of a raw magnitude between 180 and
    360, and no equivalent rotation is shorter. *)
Theorem changeDirection_minimal_arc (m : SwerveModule) (rotation : Rotation2d) :
  let current := degrees (getAngle kGearRatio m) in
  let delta := degrees rotation - current in
  let rot := commandedRotation kGearRatio m (changeDirection kGearRatio m rotation) in
  rot == wrap180 delta
  /\ -180 < rot /\ rot <= 180
  /\ (exists k : Z, rot == delta - 360 * inject_Z k)
  /\ Qabs rot <= 180
  /\ (180 < Qabs delta -> Qabs delta <= 360 -> Qabs rot == 360 - Qabs delta)
  /\ Qabs rot == angularDistance (degrees rotation) current
  /\ (forall k : Z, Qabs rot <= Qabs (delta - 360 * inject_Z k)).
Proof.
intros current delta rot.
assert (R : rot == wrap180 delta) by apply commandedRotation_changeDirection.
destruct (wrap180_bounds delta) as [Lo Hi].
destruct (wrap180_congr delta) as [c Hc].
split; [exact R|]. split; [lra|]. split; [lra|].
split; [exists c; lra|].
split; [apply Qabs_Qle_condition; lra|].
split.
- intros Hbig Hsmall. rewrite R.
  destruct (Qlt_le_dec delta 0) as [N|P].
  + rewrite (Qabs_neg delta) in * by lra.
    assert (W : wrap180 delta == delta + 360).
    { apply (wrap180_unique _ _ (-1)); try lra. change (inject_Z (-1)) with (-1). ring. }
    rewrite W. rewrite Qabs_pos by lra. ring.
  + rewrite (Qabs_pos delta) in * by lra.
    assert (W : wrap180 delta == delta - 360).
    { apply (wrap180_unique _ _ 1); try lra. change (inject_Z 1) with 1. ring. }
    rewrite W. rewrite Qabs_neg by lra. ring.
- split.
  + unfold angularDistance. fold delta. rewrite R. reflexivity.
  + intros k. rewrite R. apply wrap180_shortest.
Qed.

(** C8. A target exactly half a turn away, in whatever representation
    (180, -180, 540, ...), is always reached in the same direction: the
    else branch ("Move CW") adds 180 degrees, that is 1024 sensor units
    before the gear ratio. *)
Theorem changeDirection_half_turn (m : SwerveModule) (rotation : Rotation2d) (k : Z) :
  degrees rotation - degrees (getAngle kGearRatio m) == 180 + 360 * inject_Z k ->
  finalPos kGearRatio m rotation
    == selectedSensorPosition (directionMotor m) / kGearRatio + 1024
  /\ demand (directionMotor (changeDirection kGearRatio m rotation))
     = MotionMagic (finalPos kGearRatio m rotation * kGearRatio)
  /\ commandedRotation kGearRatio m (changeDirection kGearRatio m rotation) == 180.
Proof.
intros H.
assert (W : wrap180 (degrees rotation - degrees (getAngle kGearRatio m)) == 180).
{ apply (wrap180_unique _ _ k); lra. }
split; [|split].
- rewrite finalPos_spec, W. field. exact gear_nonzero.
- reflexivity.
- rewrite commandedRotation_changeDirection. exact W.
Qed.




(** C10. A desired speed of exactly 0 commands the drive motor with
    percent output 0 and the feed-forward [+arbFF]: [0 < 0] is false, so
    the positive bias is taken, and it is not zero unless [arbFF] is. *)
Theorem setDesiredState_zero_speed (m : SwerveModule) (desired : SwerveModuleState)
  (optimizeFlag : bool) :
  speed desired == 0 ->
  exists output : Q,
    demand (driveMotor (setDesiredState kGearRatio kWheelSize kMaxSpeed m desired optimizeFlag))
      = PercentOutput output (arbFF m)
    /\ output == 0
    /\ (~ arbFF m == 0 -> ~ arbFF m == 0 /\ ~ - arbFF m == arbFF m).
Proof.
intros H.
set (s' := if optimizeFlag then optimize desired (angle (getState kGearRatio kWheelSize m)) else desired).
assert (Hs : speed s' == 0).
{ unfold s', optimize. destruct optimizeFlag; [|exact H].
  destruct (Qlt_le_dec 90 _); cbn; lra. }
exists (speed s' / kMaxSpeed).
unfold setDesiredState. fold s'. cbn.
destruct (Qlt_le_dec (speed s') 0) as [L|L].
- exfalso. lra.
- split; [reflexivity|]. split.
  + rewrite Hs. unfold Qdiv. ring.
  + intros Hff. split; [exact Hff|]. intros E. apply Hff. lra.
Qed.

End Properties.

(** *** Evaluations on concrete modules *)

Lemma gear_not_zero : ~ gear == 0.
Proof. intros H. discriminate H. Defined.

Example moduleAt170_angle : degrees (getAngle gear moduleAt170) == 170.
Proof. vm_compute. reflexivity. Qed.

Example steer_170_to_minus170 :
  Qeq_bool
    (commandedRotation gear moduleAt170
       (setDesiredState gear wheel topSpeed moduleAt170
          {| speed := 1; angle := fromDegrees (-170) |} true)) 20 = true.
Proof. vm_compute. reflexivity. Qed.

Example steer_0_to_135_flips :
  let m' := setDesiredState gear wheel topSpeed (moduleAtSensor 0)
              {| speed := 2; angle := fromDegrees 135 |} true in
  Qeq_bool (commandedRotation gear (moduleAtSensor 0) m') (-45) = true
  /\ demand (driveMotor m') = PercentOutput (-2 / 4) (- (1 # 20)).
Proof. vm_compute. split; reflexivity. Qed.

Example steer_unwrapped :
  Qeq_bool
    (commandedRotation gear (moduleAtSensor 0)
       (changeDirection gear (moduleAtSensor 0) (fromDegrees (-400)))) (-40) = true.
Proof. vm_compute. reflexivity. Qed.


Lemma changeDirection_minimal_arc_witness :
  ~ gear == 0 /\
  let rot :=
    commandedRotation gear (moduleAtSensor 0)
      (changeDirection gear (moduleAtSensor 0) (fromDegrees 270)) in
  rot == wrap180 (270 - degrees (getAngle gear (moduleAtSensor 0)))
  /\ Qabs rot <= 180.
Proof.
split; [exact gear_not_zero|].
destruct (changeDirection_minimal_arc gear gear_not_zero (moduleAtSensor 0) (fromDegrees 270))
  as (R & _ & _ & _ & B & _).
split; [exact R | exact B].
Defined.

Lemma changeDirection_half_turn_witness :
  ~ gear == 0 /\
  degrees (fromDegrees (-180)) - degrees (getAngle gear (moduleAtSensor 0))
    == 180 + 360 * inject_Z (-1) /\
  commandedRotation gear (moduleAtSensor 0)
    (changeDirection gear (moduleAtSensor 0) (fromDegrees (-180))) == 180.
Proof.
split; [exact gear_not_zero|].
assert (H : degrees (fromDegrees (-180)) - degrees (getAngle gear (moduleAtSensor 0))
            == 180 + 360 * inject_Z (-1)) by (vm_compute; reflexivity).
split; [exact H|].
exact (proj2 (proj2 (changeDirection_half_turn gear gear_not_zero (moduleAtSensor 0)
                       (fromDegrees (-180)) (-1) H))).
Defined.

(** [hockeyStop] asks the left front module for speed 0 at 225 degrees. *)
Lemma setDesiredState_zero_speed_witness :
  speed {| speed := 0; angle := fromDegrees 225 |} == 0 /\
  exists output : Q,
    demand (driveMotor (setDesiredState gear wheel topSpeed (moduleAtSensor 0)
                          {| speed := 0; angle := fromDegrees 225 |} true))
    = PercentOutput output (1 # 20)
    /\ output == 0.
Proof.
assert (H : speed {| speed := 0; angle := fromDegrees 225 |} == 0) by reflexivity.
split; [exact H|].
destruct (setDesiredState_zero_speed gear wheel topSpeed (moduleAtSensor 0)
            {| speed := 0; angle := fromDegrees 225 |} true H) as (o & D & Z & _).
exists o. split; [exact D | exact Z].
Defined.

(** *** Sensors, resets and simulation: properties *)

Section SensorProperties.

Variable kGearRatio : Q.
Variable kWheelSize : Q.
Variable kMaxSpeed : Q.
Hypothesis gear_nonzero : ~ kGearRatio == 0.

(** X1. After [resetSensorPosition] the module angle reads the opposite
    of the absolute encoder position, whatever the direction sensor read
    before (after [resetPositions] too, the order of [Swerve.initialize]);
    a steering command that follows turns by the wrapped sum of the
    requested angle and the absolute position. *)
Theorem resetSensorPosition_angle (m : SwerveModule) (absolutePosition : Q)
  (rotation : Rotation2d) :
  let m' := resetSensorPosition kGearRatio m absolutePosition in
  degrees (getAngle kGearRatio m') == - absolutePosition
  /\ degrees (getAngle kGearRatio
                (resetSensorPosition kGearRatio (resetPositions m) absolutePosition))
     == - absolutePosition
  /\ commandedRotation kGearRatio m' (changeDirection kGearRatio m' rotation)
     == wrap180 (degrees rotation + absolutePosition).
Proof.
intros m'.
assert (A : forall m0, degrees (getAngle kGearRatio
                                  (resetSensorPosition kGearRatio m0 absolutePosition))
                       == - absolutePosition).
{ intros m0. unfold getAngle, resetSensorPosition, sensorDegrees. cbn.
  field. exact gear_nonzero. }
split; [apply A|]. split; [apply A|].
rewrite (commandedRotation_changeDirection kGearRatio gear_nonzero).
apply wrap180_Proper. unfold m'. rewrite A. ring.
Qed.

(** X3. A module whose direction motor has arrived at the commanded
    target is at the requested angle up to whole turns, and commanding
    the same rotation again asks for no movement: the target stays. *)
Theorem changeDirection_settles (m : SwerveModule) (rotation : Rotation2d) :
  let m1 := arrive (changeDirection kGearRatio m rotation) in
  (exists k : Z, degrees (getAngle kGearRatio m1) == degrees rotation - 360 * inject_Z k)
  /\ commandedRotation kGearRatio m1 (changeDirection kGearRatio m1 rotation) == 0
  /\ steeringTarget (changeDirection kGearRatio m1 rotation) == steeringTarget m1.
Proof.
intros m1.
assert (G : degrees (getAngle kGearRatio m1)
            == degrees (getAngle kGearRatio m)
               + wrap180 (degrees rotation - degrees (getAngle kGearRatio m))).
{ pose proof (commandedRotation_changeDirection kGearRatio gear_nonzero m rotation) as R.
  unfold commandedRotation in R.
  change (degrees (getAngle kGearRatio m1))
    with (sensorDegrees kGearRatio (steeringTarget (changeDirection kGearRatio m rotation))).
  lra. }
destruct (wrap180_congr (degrees rotation - degrees (getAngle kGearRatio m))) as [k Hk].
assert (Z0 : wrap180 (degrees rotation - degrees (getAngle kGearRatio m1)) == 0).
{ apply (wrap180_unique _ _ k); lra. }
split; [exists k; lra|].
split.
- rewrite (commandedRotation_changeDirection kGearRatio gear_nonzero). exact Z0.
- change (steeringTarget (changeDirection kGearRatio m1 rotation))
    with (finalPos kGearRatio m1 rotation * kGearRatio).
  rewrite finalPos_spec, Z0.
  change (selectedSensorPosition (directionMotor m1)) with (steeringTarget m1).
  field. exact gear_nonzero.
Qed.

End SensorProperties.

Section DriveProperties.

Variable kGearRatio : Q.
Variable kWheelSize : Q.
Variable kMaxSpeed : Q.

(** X2. [resetPositions] zeroes the angle, and the distance that
    [getPosition] reports on a real robot; in simulation [getPosition]
    reports [simDrivePos], which [resetPositions] does not touch. *)
Theorem resetPositions_position (m : SwerveModule) :
  degrees (getAngle kGearRatio (resetPositions m)) == 0
  /\ distance (getPosition kGearRatio kWheelSize true (resetPositions m)) == 0
  /\ distance (getPosition kGearRatio kWheelSize false (resetPositions m)) = simDrivePos m
  /\ distance (getPosition kGearRatio kWheelSize false m) = simDrivePos m.
Proof.
split; [|split; [|split; reflexivity]].
- unfold getAngle, resetPositions, sensorDegrees. cbn. unfold Qdiv. ring.
- unfold getPosition, resetPositions. cbn. unfold Qdiv. ring.
Qed.

Lemma simulationPeriodic_step (m : SwerveModule) :
  simDrivePos (simulationPeriodic kGearRatio kWheelSize m)
  == simDrivePos m + speed (getState kGearRatio kWheelSize m) / 100.
Proof.
unfold simulationPeriodic, getState. cbn [simDrivePos speed]. unfold Qdiv.
generalize (/ kGearRatio). intros g. field.
Qed.

Lemma simulationPeriodic_iter_motors (n : nat) (m : SwerveModule) :
  driveMotor (Nat.iter n (simulationPeriodic kGearRatio kWheelSize) m) = driveMotor m
  /\ directionMotor (Nat.iter n (simulationPeriodic kGearRatio kWheelSize) m)
     = directionMotor m.
Proof.
induction n as [|n IH]; [split; reflexivity|].
exact IH.
Qed.

Lemma simulationPeriodic_iter_state (n : nat) (m : SwerveModule) :
  getState kGearRatio kWheelSize (Nat.iter n (simulationPeriodic kGearRatio kWheelSize) m)
  = getState kGearRatio kWheelSize m
  /\ getAngle kGearRatio (Nat.iter n (simulationPeriodic kGearRatio kWheelSize) m)
     = getAngle kGearRatio m.
Proof.
destruct (simulationPeriodic_iter_motors n m) as [D S].
unfold getState, getAngle. rewrite D, S. split; reflexivity.
Qed.

Lemma simulationPeriodic_iter_distance (n : nat) (m : SwerveModule) :
  simDrivePos (Nat.iter n (simulationPeriodic kGearRatio kWheelSize) m)
  == simDrivePos m
     + inject_Z (Z.of_nat n) * (speed (getState kGearRatio kWheelSize m) / 100).
Proof.
induction n as [|n IH].
- change (simDrivePos m == simDrivePos m + 0 * (speed (getState kGearRatio kWheelSize m) / 100)).
  ring.
- rewrite Nat.iter_succ, simulationPeriodic_step, IH.
  rewrite (proj1 (simulationPeriodic_iter_state n m)).
  rewrite Nat2Z.inj_succ. unfold Z.succ. rewrite inject_Z_plus.
  change (inject_Z 1) with 1. ring.
Qed.

(** X4. In simulation the drive distance is integrated from the measured
    speed: [n] calls of [simulationPeriodic] at a constant sensor
    velocity add [n] times a hundredth of the speed [getState] reports,
    they leave that speed and the angle as they are, and [getPosition]
    reports the sum. *)
Theorem simulationPeriodic_integrates (n : nat) (m : SwerveModule) :
  let m' := Nat.iter n (simulationPeriodic kGearRatio kWheelSize) m in
  distance (getPosition kGearRatio kWheelSize false m')
    == simDrivePos m
       + inject_Z (Z.of_nat n) * (speed (getState kGearRatio kWheelSize m) / 100)
  /\ getState kGearRatio kWheelSize m' = getState kGearRatio kWheelSize m
  /\ getAngle kGearRatio m' = getAngle kGearRatio m.
Proof.
intros m'. split.
- apply simulationPeriodic_iter_distance.
- apply simulationPeriodic_iter_state.
Qed.

(** The drive demand that [setDesiredState] leaves. *)
Lemma setDesiredState_drive_demand (m : SwerveModule) (desired : SwerveModuleState)
  (optimizeFlag : bool) :
  let s' := if optimizeFlag
            then optimize desired (angle (getState kGearRatio kWheelSize m))
            else desired in
  demand (driveMotor (setDesiredState kGearRatio kWheelSize kMaxSpeed m desired optimizeFlag))
  = PercentOutput (speed s' / kMaxSpeed)
      (if Qlt_le_dec (speed s') 0 then - arbFF m else arbFF m).
Proof. reflexivity. Qed.

(** X5. For a non-negative [arbFF] and a positive top speed the
    feed-forward is never against the commanded output: they have the
    same sign, and the feed-forward has magnitude [arbFF] at every speed,
    zero included. *)
Theorem feedforward_follows_output (m : SwerveModule) (desired : SwerveModuleState)
  (optimizeFlag : bool) :
  0 <= arbFF m -> 0 < kMaxSpeed ->
  exists output ff : Q,
    demand (driveMotor (setDesiredState kGearRatio kWheelSize kMaxSpeed m desired optimizeFlag))
      = PercentOutput output ff
    /\ 0 <= output * ff
    /\ Qabs ff == arbFF m
    /\ (output < 0 -> ff == - arbFF m)
    /\ (0 <= output -> ff == arbFF m).
Proof.
intros Hff Hmax.
rewrite setDesiredState_drive_demand.
set (s' := if optimizeFlag then _ else desired).
exists (speed s' / kMaxSpeed).
exists (if Qlt_le_dec (speed s') 0 then - arbFF m else arbFF m).
split; [reflexivity|].
assert (Hinv : 0 < / kMaxSpeed) by (apply Qinv_lt_0_compat; exact Hmax).
assert (Hsign : forall x, (0 <= x -> 0 <= x / kMaxSpeed) /\ (x < 0 -> x / kMaxSpeed < 0)).
{ intros x. unfold Qdiv. split; intros Hx.
  - apply Qmult_le_0_compat; lra.
  - assert (0 < (- x) * / kMaxSpeed) by (apply Qmult_lt_0_compat; lra). lra. }
destruct (Hsign (speed s')) as [Hp Hn].
destruct (Qlt_le_dec (speed s') 0) as [L|L].
- specialize (Hn L). split; [|split; [|split]].
  + assert (0 <= (- (speed s' / kMaxSpeed)) * arbFF m) by (apply Qmult_le_0_compat; lra).
    lra.
  + rewrite Qabs_opp. apply Qabs_pos. exact Hff.
  + intros _. reflexivity.
  + intros H. lra.
- specialize (Hp L). split; [|split; [|split]].
  + apply Qmult_le_0_compat; lra.
  + apply Qabs_pos. exact Hff.
  + intros H. lra.
  + intros _. reflexivity.
Qed.

End DriveProperties.

Lemma py_int_spec (x : Q) :
  Qabs (x - inject_Z (py_int x)) < 1 /\ Qabs (inject_Z (py_int x)) <= Qabs x.
Proof.
unfold py_int. destruct (Qlt_le_dec x 0) as [N|P].
- pose proof (Qle_ceiling x) as H1. pose proof (Qceiling_lt x) as H2.
  rewrite inject_Z_sub in H2. change (inject_Z 1) with 1 in H2.
  assert (H3 : inject_Z (Qceiling x) <= 0).
  { change 0 with (inject_Z 0). apply Z_le_Q.
    rewrite <- (Qceiling_Z 0). apply Qceiling_resp_le. change (inject_Z 0) with 0. lra. }
  generalize dependent (inject_Z (Qceiling x)). intros c H1 H2 H3.
  split.
  + apply Qabs_Qlt_condition. lra.
  + rewrite (Qabs_neg c) by lra. rewrite (Qabs_neg x) by lra. lra.
- pose proof (Qfloor_le x) as H1. pose proof (Qlt_floor x) as H2.
  rewrite inject_Z_plus in H2. change (inject_Z 1) with 1 in H2.
  assert (H3 : 0 <= inject_Z (Qfloor x)).
  { change 0 with (inject_Z 0). apply Z_le_Q.
    rewrite <- (Qfloor_Z 0). apply Qfloor_resp_le. change (inject_Z 0) with 0. exact P. }
  generalize dependent (inject_Z (Qfloor x)). intros c H1 H2 H3.
  split.
  + apply Qabs_Qlt_condition. lra.
  + rewrite (Qabs_pos c) by lra. rewrite (Qabs_pos x) by lra. lra.
Qed.

Section CommandProperties.

Variable kGearRatio : Q.
Variable kWheelSize : Q.
Variable kMaxSpeed : Q.

(** X7. [changeDirection] moves the simulated sensor to a whole number
    of units less than one unit away from the MotionMagic target and never
    farther from zero than it; the drive motor and the sensors of the
    direction motor are left as they were. *)
Theorem changeDirection_sim_position (m : SwerveModule) (rotation : Rotation2d) :
  let m' := changeDirection kGearRatio m rotation in
  demand (directionMotor m') = MotionMagic (steeringTarget m')
  /\ Qabs (steeringTarget m' - inject_Z (simIntegratedSensorRawPosition (directionMotor m'))) < 1
  /\ Qabs (inject_Z (simIntegratedSensorRawPosition (directionMotor m')))
     <= Qabs (steeringTarget m')
  /\ selectedSensorPosition (directionMotor m') = selectedSensorPosition (directionMotor m)
  /\ driveMotor m' = driveMotor m.
Proof.
intros m'.
destruct (py_int_spec (finalPos kGearRatio m rotation * kGearRatio)) as [A B].
split; [reflexivity|]. split; [exact A|]. split; [exact B|]. split; reflexivity.
Qed.

Hypothesis gear_nonzero : ~ kGearRatio == 0.

(** X6. With [optimize=True] the drive output and the steering target
    stay together: either the output is [speed / kMaxSpeed] and the
    target is the desired angle up to whole turns, or the output is
    [- speed / kMaxSpeed] and the target is the desired angle plus half a
    turn, up to whole turns.  The wheel is never asked to roll against
    the desired velocity. *)
Theorem setDesiredState_keeps_wheel_velocity (m : SwerveModule)
  (desired : SwerveModuleState) :
  let m' := setDesiredState kGearRatio kWheelSize kMaxSpeed m desired true in
  exists (flip : bool) (k : Z) (ff : Q),
    demand (driveMotor m')
    = PercentOutput ((if flip then - speed desired else speed desired) / kMaxSpeed) ff
    /\ sensorDegrees kGearRatio (steeringTarget m')
       == degrees (angle desired) + (if flip then 180 else 0) - 360 * inject_Z k.
Proof.
intros m'.
pose proof (commandedRotation_setDesiredState kGearRatio kWheelSize kMaxSpeed
              gear_nonzero m desired true) as R.
fold m' in R. unfold commandedRotation in R.
pose proof (setDesiredState_drive_demand kGearRatio kWheelSize kMaxSpeed m desired true) as D.
fold m' in D. cbv zeta in D.
change (angle (getState kGearRatio kWheelSize m)) with (getAngle kGearRatio m) in D.
set (c := degrees (getAngle kGearRatio m)) in *.
set (s' := optimize desired (getAngle kGearRatio m)) in *.
destruct (wrap180_congr (degrees (angle s') - c)) as [k Hk].
assert (O : (s' = desired) \/
            (speed s' = - speed desired
             /\ degrees (angle s') = wrap180 (degrees (angle desired) + 180))).
{ unfold s', optimize. destruct (Qlt_le_dec 90 _); [right; split; reflexivity | left; reflexivity]. }
clearbody s'.
destruct O as [E|[Es Ea]].
- subst s'. exists false, k. eexists. split.
  + rewrite D. reflexivity.
  + lra.
- destruct (wrap180_congr (degrees (angle desired) + 180)) as [k' Hk'].
  rewrite Ea in R, Hk.
  exists true, (k + k')%Z. eexists. split.
  + rewrite D, Es. reflexivity.
  + rewrite inject_Z_plus. lra.
Qed.

End CommandProperties.

Section UnitProperties.

Variable kGearRatio : Q.
Variable kWheelSize : Q.

(** X15. On a real robot distance and speed use the same scale: when
    the drive sensor advances by its velocity reading, the travel of
    100 ms, the distance [getPosition] reports grows by a tenth of the
    speed [getState] reports.  One call of [simulationPeriodic] adds a
    hundredth of that speed. *)
Theorem distance_follows_speed (m m' : SwerveModule) :
  selectedSensorPosition (driveMotor m')
    == selectedSensorPosition (driveMotor m) + selectedSensorVelocity (driveMotor m) ->
  distance (getPosition kGearRatio kWheelSize true m')
    - distance (getPosition kGearRatio kWheelSize true m)
    == speed (getState kGearRatio kWheelSize m) / 10
  /\ distance (getPosition kGearRatio kWheelSize false
                 (simulationPeriodic kGearRatio kWheelSize m))
     - distance (getPosition kGearRatio kWheelSize false m)
     == speed (getState kGearRatio kWheelSize m) / 100.
Proof.
intros H. split.
- unfold getPosition, getState. cbn [negb distance speed]. rewrite H.
  unfold Qdiv. generalize (/ kGearRatio). intros g. field.
- change (simDrivePos (simulationPeriodic kGearRatio kWheelSize m) - simDrivePos m
          == speed (getState kGearRatio kWheelSize m) / 100).
  rewrite simulationPeriodic_step. ring.
Qed.

End UnitProperties.

(** *** Instances of the hypotheses *)

Lemma resetSensorPosition_angle_witness :
  ~ gear == 0 /\
  degrees (getAngle gear (resetSensorPosition gear moduleAt170 30)) == - 30.
Proof.
split; [exact gear_not_zero|].
exact (proj1 (resetSensorPosition_angle gear gear_not_zero moduleAt170 30 (fromDegrees 0))).
Defined.

Lemma changeDirection_settles_witness :
  ~ gear == 0 /\
  let m1 := arrive (changeDirection gear moduleAt170 (fromDegrees (-170))) in
  commandedRotation gear m1 (changeDirection gear m1 (fromDegrees (-170))) == 0.
Proof.
split; [exact gear_not_zero|].
exact (proj1 (proj2 (changeDirection_settles gear gear_not_zero moduleAt170
                       (fromDegrees (-170))))).
Defined.

Lemma feedforward_follows_output_witness :
  0 <= arbFF (moduleAtSensor 0) /\ 0 < topSpeed /\
  exists output ff : Q,
    demand (driveMotor (setDesiredState gear wheel topSpeed (moduleAtSensor 0)
                          {| speed := -2; angle := fromDegrees 10 |} true))
      = PercentOutput output ff
    /\ 0 <= output * ff.
Proof.
assert (H1 : 0 <= arbFF (moduleAtSensor 0)) by (vm_compute; discriminate).
assert (H2 : 0 < topSpeed) by reflexivity.
split; [exact H1|]. split; [exact H2|].
destruct (feedforward_follows_output gear wheel topSpeed (moduleAtSensor 0)
            {| speed := -2; angle := fromDegrees 10 |} true H1 H2) as (o & f & D & S & _).
exists o, f. split; [exact D | exact S].
Defined.

Lemma setDesiredState_keeps_wheel_velocity_witness :
  ~ gear == 0 /\
  exists (flip : bool) (k : Z) (ff : Q),
    demand (driveMotor (setDesiredState gear wheel topSpeed (moduleAtSensor 0)
                          {| speed := 2; angle := fromDegrees 135 |} true))
    = PercentOutput ((if flip then - 2 else 2) / topSpeed) ff
    /\ sensorDegrees gear
         (steeringTarget (setDesiredState gear wheel topSpeed (moduleAtSensor 0)
                            {| speed := 2; angle := fromDegrees 135 |} true))
       == 135 + (if flip then 180 else 0) - 360 * inject_Z k.
Proof.
split; [exact gear_not_zero|].
exact (setDesiredState_keeps_wheel_velocity gear wheel topSpeed gear_not_zero
         (moduleAtSensor 0) {| speed := 2; angle := fromDegrees 135 |}).
Defined.

Lemma distance_follows_speed_witness :
  selectedSensorPosition (driveMotor rolledModule)
    == selectedSensorPosition (driveMotor rollingModule)
       + selectedSensorVelocity (driveMotor rollingModule)
  /\ distance (getPosition gear wheel true rolledModule)
     - distance (getPosition gear wheel true rollingModule)
     == speed (getState gear wheel rollingModule) / 10.
Proof.
assert (H : selectedSensorPosition (driveMotor rolledModule)
            == selectedSensorPosition (driveMotor rollingModule)
               + selectedSensorVelocity (driveMotor rollingModule)) by reflexivity.
split; [exact H|].
exact (proj1 (distance_follows_speed gear wheel rollingModule rolledModule H)).
Defined.

Example simulation_three_periods :
  Qeq_bool
    (distance (getPosition gear wheel false
                 (Nat.iter 3 (simulationPeriodic gear wheel) rollingModule)))
    (3 * (speed (getState gear wheel rollingModule) / 100)) = true.
Proof. vm_compute. reflexivity. Qed.

End Steering.

(** ** Chassis geometry and kinematics, over [R] *)

Module Chassis.
Local Open Scope R_scope.

(** The four modules, in the order the code keeps throughout:
    left front, left rear, right front, right rear. *)
Record Quad (A : Type) := quad {
  leftFront : A;
  leftRear : A;
  rightFront : A;
  rightRear : A
}.
Arguments quad {A} _ _ _ _.
Arguments leftFront {A} _.
Arguments leftRear {A} _.
Arguments rightFront {A} _.
Arguments rightRear {A} _.

Definition qmap {A B : Type} (f : A -> B) (q : Quad A) : Quad B :=
  quad (f (leftFront q)) (f (leftRear q)) (f (rightFront q)) (f (rightRear q)).

Definition qsum (q : Quad R) : R :=
  leftFront q + leftRear q + rightFront q + rightRear q.

(** [wpimath.geometry.Translation2d]. *)
Record Translation2d := { X : R; Y : R }.

Definition origin : Translation2d := {| X := 0; Y := 0 |}.

(** [wpimath.geometry.Rotation2d], seen through its cosine and sine, the
    view the chassis arithmetic takes of it. *)
Record Rotation2d := { Cos : R; Sin : R }.

Definition Rotation2d_zero : Rotation2d := {| Cos := 1; Sin := 0 |}.

Definition fromRadians (r : R) : Rotation2d := {| Cos := cos r; Sin := sin r |}.

Definition fromDegrees (d : R) : Rotation2d := fromRadians (d * PI / 180).

(** [wpimath.kinematics.ChassisSpeeds]; [omega] is in radians per second. *)
Record ChassisSpeeds := { vx : R; vy : R; omega : R }.

Definition omega_dps (s : ChassisSpeeds) : R := omega s * 180 / PI.

(** [wpimath.kinematics.SwerveModuleState]. *)
Record SwerveModuleState := { speed : R; angle : Rotation2d }.

(** The velocity of the wheel a module state stands for. *)
Definition wheelVelocity (s : SwerveModuleState) : R * R :=
  (speed s * Cos (angle s), speed s * Sin (angle s)).

(** Modelled from the spec: [ChassisSpeeds.fromFieldRelativeSpeeds] belongs
    to wpimath and is not under src/.  Section 4.4 of the spec: the
    velocity is rotated into the robot frame using the current heading.
    The heading is a [Rotation2d], counter-clockwise positive, so a
    field-frame vector is turned by the opposite of the heading. *)
Definition fromFieldRelativeSpeeds (s : ChassisSpeeds) (robotAngle : Rotation2d)
  : ChassisSpeeds :=
  {| vx := vx s * Cos robotAngle + vy s * Sin robotAngle;
     vy := - vx s * Sin robotAngle + vy s * Cos robotAngle;
     omega := omega s |}.

(** Modelled from the spec: [SwerveDrive4Kinematics.toSwerveModuleStates]
    belongs to wpimath and is not under src/.  Section 4.2 of the spec:
    each module's velocity vector is the robot's translational velocity
    plus the angular velocity crossed with the module's position relative
    to the center of rotation, converted to (magnitude, angle).  A zero
    vector is given the zero rotation. *)
Definition moduleVelocity (location centerOfRotation : Translation2d)
  (s : ChassisSpeeds) : R * R :=
  (vx s - omega s * (Y location - Y centerOfRotation),
   vy s + omega s * (X location - X centerOfRotation)).

Definition toState (v : R * R) : SwerveModuleState :=
  let magnitude := sqrt (fst v * fst v + snd v * snd v) in
  {| speed := magnitude;
     angle :=
       if Req_dec_T magnitude 0 then Rotation2d_zero
       else {| Cos := fst v / magnitude; Sin := snd v / magnitude |} |}.

Definition toSwerveModuleStates (kinematics : Quad Translation2d)
  (s : ChassisSpeeds) (centerOfRotation : Translation2d) : Quad SwerveModuleState :=
  qmap (fun location => toState (moduleVelocity location centerOfRotation s)) kinematics.

(** How far the four modules spread around their centroid; it is zero
    only when the four modules sit at one point. *)
Definition spread (kinematics : Quad Translation2d) : R :=
  4 * qsum (qmap (fun l => X l * X l + Y l * Y l) kinematics)
  - qsum (qmap X kinematics) * qsum (qmap X kinematics)
  - qsum (qmap Y kinematics) * qsum (qmap Y kinematics).

Definition qzip {A B C : Type} (f : A -> B -> C) (q : Quad A) (r : Quad B) : Quad C :=
  quad (f (leftFront q) (leftFront r)) (f (leftRear q) (leftRear r))
       (f (rightFront q) (rightFront r)) (f (rightRear q) (rightRear r)).

(** Modelled from the spec: [SwerveDrive4Kinematics.toChassisSpeeds]
    belongs to wpimath and is not under src/.  Section 4.2 of the spec:
    the least-squares inverse of [toSwerveModuleStates], that is the
    solution of its normal equations, written out. *)
Definition toChassisSpeeds (kinematics : Quad Translation2d)
  (states : Quad SwerveModuleState) : ChassisSpeeds :=
  let sx := qsum (qmap X kinematics) in
  let sy := qsum (qmap Y kinematics) in
  let p := qsum (qmap (fun s => fst (wheelVelocity s)) states) in
  let q := qsum (qmap (fun s => snd (wheelVelocity s)) states) in
  let t := qsum (qzip (fun l s => - Y l * fst (wheelVelocity s)
                                  + X l * snd (wheelVelocity s)) kinematics states) in
  let w := (4 * t + sy * p - sx * q) / spread kinematics in
  {| vx := (p + sy * w) / 4; vy := (q - sx * w) / 4; omega := w |}.

(** Modelled from the spec: [SwerveDrive4Kinematics.desaturateWheelSpeeds]
    belongs to wpimath and is not under src/.  Section 4.2 of the spec:
    if any module's commanded speed exceeds [maxSpeed], all four speeds
    are scaled down by the same ratio, the one that brings the fastest
    module to [maxSpeed].  Speeds are compared by magnitude. *)
Definition realMaxSpeed (states : Quad SwerveModuleState) : R :=
  Rmax (Rmax (Rmax (Rabs (speed (leftFront states))) (Rabs (speed (leftRear states))))
             (Rabs (speed (rightFront states))))
       (Rabs (speed (rightRear states))).

Definition desaturateWheelSpeeds (states : Quad SwerveModuleState)
  (attainableMaxSpeed : R) : Quad SwerveModuleState :=
  if Rlt_dec attainableMaxSpeed (realMaxSpeed states) then
    qmap (fun s => {| speed := speed s / realMaxSpeed states * attainableMaxSpeed;
                      angle := angle s |}) states
  else states.

(** One of the four modules. *)
Inductive Corner := LF | LR | RF | RR.

Definition qget {A : Type} (i : Corner) (q : Quad A) : A :=
  match i with
  | LF => leftFront q
  | LR => leftRear q
  | RF => rightFront q
  | RR => rightRear q
  end.

(** *** [Swerve] of swerve.py *)

(** [Swerve.kinematics]: LF, LR, RF, RR. *)
Definition Swerve_kinematics : Quad Translation2d :=
  quad {| X := 1; Y := 1 |} {| X := -1; Y := 1 |}
       {| X := 1; Y := -1 |} {| X := -1; Y := -1 |}.

(** What [Swerve] holds and reads: the heading of the navX, the state
    each module measures ([getState]), the state and [optimize] flag each
    module was last given through [setDesiredState], and its own two
    fields. *)
Record Swerve := {
  navX_rotation : Rotation2d;
  moduleStates : Quad SwerveModuleState;
  desiredStates : Quad (SwerveModuleState * bool);
  chassisSpeed : ChassisSpeeds;
  targetRad : R
}.

Section SwerveClass.

Variable kMaxSpeed : R.   (* Larry.kMaxSpeed *)
Variable isReal : bool.   (* RobotBase.isReal() *)

Definition getAngle (sw : Swerve) : Rotation2d := navX_rotation sw.

Definition setModuleStates (sw : Swerve) (states : Quad SwerveModuleState)
  (optimizeAngle : bool) : Swerve :=
  let desatStates := desaturateWheelSpeeds states kMaxSpeed in
  {| navX_rotation := navX_rotation sw;
     moduleStates := moduleStates sw;
     desiredStates := qmap (fun s => (s, optimizeAngle)) desatStates;
     chassisSpeed := chassisSpeed sw;
     targetRad := targetRad sw |}.

Definition drive (sw : Swerve) (speeds : ChassisSpeeds) (fieldRelative : bool) : Swerve :=
  let states :=
    if fieldRelative then
      if isReal then
        toSwerveModuleStates Swerve_kinematics
          (fromFieldRelativeSpeeds speeds (getAngle sw)) origin
      else
        toSwerveModuleStates Swerve_kinematics
          (fromFieldRelativeSpeeds speeds (fromDegrees (targetRad sw))) origin
    else toSwerveModuleStates Swerve_kinematics speeds origin in
  let desatStates := desaturateWheelSpeeds states kMaxSpeed in
  let sw1 :=
    {| navX_rotation := navX_rotation sw;
       moduleStates := moduleStates sw;
       desiredStates := desiredStates sw;
       chassisSpeed := speeds;
       targetRad := targetRad sw |} in
  let sw2 := setModuleStates sw1 desatStates true in
  if isReal then sw2
  else
    {| navX_rotation := navX_rotation sw2;
       moduleStates := moduleStates sw2;
       desiredStates := desiredStates sw2;
       chassisSpeed := chassisSpeed sw2;
       targetRad := targetRad sw2 + omega speeds / 50 |}.

Definition getChassisSpeeds (sw : Swerve) : ChassisSpeeds := chassisSpeed sw.

End SwerveClass.

(** *** [Drivetrain] of drivetrain.py *)

Record SwerveModulePosition := { distance : R; positionAngle : Rotation2d }.

Record Pose2d := { translation : Translation2d; rotation : Rotation2d }.

(** What [LimelightHelpers.get_botpose_estimate_wpiblue_megatag2] returns. *)
Record PoseEstimate := {
  pose : Pose2d;
  timestamp_seconds : R;
  tag_count : Z
}.

(** What [Drivetrain] holds and reads: the navX (heading and rate), the
    simulated heading, the pose estimator (a [SwerveDrive4PoseEstimator],
    of wpimath, whose state is left abstract), what each module measures
    ([get_state], [get_position]), the state each module was last given
    through [set_desired_state], and the pose last shown on the field
    widget. *)
Record Drivetrain (Estimator : Type) := {
  navx_rotation : Rotation2d;
  navx_rate : R;
  gyro_sim : R;
  odometry : Estimator;
  module_states : Quad SwerveModuleState;
  module_positions : Quad SwerveModulePosition;
  desired_states : Quad SwerveModuleState;
  field_robot_pose : Pose2d
}.
Arguments navx_rotation {Estimator} _.
Arguments navx_rate {Estimator} _.
Arguments gyro_sim {Estimator} _.
Arguments odometry {Estimator} _.
Arguments module_states {Estimator} _.
Arguments module_positions {Estimator} _.
Arguments desired_states {Estimator} _.
Arguments field_robot_pose {Estimator} _.

Section DrivetrainClass.

Context {Estimator StdDevs : Type}.

(** constants.py is not under src/: its values are parameters. *)
Variable kinematics : Quad Translation2d.   (* Constants.Drivetrain.ModuleLocations *)
Variable k_max_attainable_speed : R.
Variable k_standard_deviations : StdDevs.   (* Constants.Limelight *)
Variable isReal : bool.                     (* RobotBase.isReal() *)

(** [ChassisSpeeds.discretize] (wpimath): the spec gives no formula for
    it, so it is a parameter. *)
Variable discretize : ChassisSpeeds -> R -> ChassisSpeeds.

(** The four operations of the pose estimator that the drivetrain calls. *)
Variable est_update : Estimator -> Rotation2d -> Quad SwerveModulePosition -> Estimator.
Variable est_setVisionMeasurementStdDevs : Estimator -> StdDevs -> Estimator.
Variable est_addVisionMeasurement : Estimator -> Pose2d -> R -> Estimator.
Variable est_getEstimatedPosition : Estimator -> Pose2d.

Definition get_yaw (d : Drivetrain Estimator) : Rotation2d :=
  if isReal then navx_rotation d else fromDegrees (gyro_sim d).

Definition simulate_gyro (d : Drivetrain Estimator) (degrees_per_second : R) : Drivetrain Estimator :=
  {| navx_rotation := navx_rotation d;
     navx_rate := navx_rate d;
     gyro_sim := gyro_sim d + degrees_per_second * (2 / 100);
     odometry := odometry d;
     module_states := module_states d;
     module_positions := module_positions d;
     desired_states := desired_states d;
     field_robot_pose := field_robot_pose d |}.

Definition get_robot_speed (d : Drivetrain Estimator) : ChassisSpeeds :=
  toChassisSpeeds kinematics (module_states d).

Definition set_desired_module_states (d : Drivetrain Estimator) (states : Quad SwerveModuleState)
  : Drivetrain Estimator :=
  {| navx_rotation := navx_rotation d;
     navx_rate := navx_rate d;
     gyro_sim := gyro_sim d;
     odometry := odometry d;
     module_states := module_states d;
     module_positions := module_positions d;
     desired_states := desaturateWheelSpeeds states k_max_attainable_speed;
     field_robot_pose := field_robot_pose d |}.

Definition drive_robot_centric (d : Drivetrain Estimator) (speeds : ChassisSpeeds)
  (center_of_rotation : Translation2d) : Drivetrain Estimator :=
  let speeds := discretize speeds (2 / 100) in
  let module_speeds := toSwerveModuleStates kinematics speeds center_of_rotation in
  let d := set_desired_module_states d module_speeds in
  simulate_gyro d (omega_dps speeds).

Definition drive_field_relative (d : Drivetrain Estimator) (speeds : ChassisSpeeds)
  (center_of_rotation : Translation2d) : Drivetrain Estimator :=
  let speeds := discretize speeds (2 / 100) in
  let speeds := fromFieldRelativeSpeeds speeds (get_yaw d) in
  let module_speeds := toSwerveModuleStates kinematics speeds center_of_rotation in
  let d := set_desired_module_states d module_speeds in
  simulate_gyro d (omega_dps speeds).

(** The test of [periodic] that lets a vision measurement in. *)
Definition vision_guard (d : Drivetrain Estimator) (mega_tag2 : PoseEstimate) : bool :=
  (if Rlt_dec (Rabs (navx_rate d)) 720 then true else false)
  && (0 <? tag_count mega_tag2)%Z
  && isReal.

(** The vision step of [periodic], on the estimator. *)
Definition fuse_vision (d : Drivetrain Estimator) (est : Estimator) (mega_tag2 : PoseEstimate)
  : Estimator :=
  if vision_guard d mega_tag2 then
    est_addVisionMeasurement
      (est_setVisionMeasurementStdDevs est k_standard_deviations)
      (pose mega_tag2) (timestamp_seconds mega_tag2)
  else est.

(** [periodic], with what the Limelight answers this cycle as an input.
    Of the telemetry only the robot pose on the field widget is kept. *)
Definition periodic (d : Drivetrain Estimator) (mega_tag2 : PoseEstimate) : Drivetrain Estimator :=
  let est := est_update (odometry d) (get_yaw d) (module_positions d) in
  let est := fuse_vision d est mega_tag2 in
  {| navx_rotation := navx_rotation d;
     navx_rate := navx_rate d;
     gyro_sim := gyro_sim d;
     odometry := est;
     module_states := module_states d;
     module_positions := module_positions d;
     desired_states := desired_states d;
     field_robot_pose := est_getEstimatedPosition est |}.

End DrivetrainClass.

(** *** Named quantities and concrete inputs *)

(** The factor by which desaturation multiplies every speed. *)
Definition desaturationFactor (states : Quad SwerveModuleState) (maxSpeed : R) : R :=
  if Rlt_dec maxSpeed (realMaxSpeed states) then maxSpeed / realMaxSpeed states else 1.

(** Four module states from four speeds and four angles. *)
Definition withSpeeds (speeds : Quad R) (angles : Quad Rotation2d) : Quad SwerveModuleState :=
  qzip (fun v a => {| speed := v; angle := a |}) speeds angles.

(** The squared error of chassis speeds [c] against the four measured
    wheel velocities. *)
Definition residual (kinematics : Quad Translation2d) (states : Quad SwerveModuleState)
  (c : ChassisSpeeds) : R :=
  qsum (qzip (fun l s =>
                let e1 := fst (moduleVelocity l origin c) - fst (wheelVelocity s) in
                let e2 := snd (moduleVelocity l origin c) - snd (wheelVelocity s) in
                e1 * e1 + e2 * e2) kinematics states).


(** An instance of [pure_translation_fixed]: the formula that wpimath
    (not under src/) documents for [ChassisSpeeds.discretize], in exact
    arithmetic, that is the logarithm of the pose reached after [dt],
    divided by [dt]. *)
Definition discretize_pose_log (s : ChassisSpeeds) (dt : R) : ChassisSpeeds :=
  let dx := vx s * dt in
  let dy := vy s * dt in
  let dtheta := omega s * dt in
  let halfDtheta := dtheta / 2 in
  let cosMinusOne := cos dtheta - 1 in
  let halfThetaByTanOfHalfDtheta :=
    if Req_dec_T cosMinusOne 0 then 1 - 1 / 12 * dtheta * dtheta
    else - (halfDtheta * sin dtheta) / cosMinusOne in
  {| vx := (dx * halfThetaByTanOfHalfDtheta + dy * halfDtheta) / dt;
     vy := (- dx * halfDtheta + dy * halfThetaByTanOfHalfDtheta) / dt;
     omega := dtheta / dt |}.



(** A module at rest, and a [Swerve] whose four modules are at rest. *)
Definition restState : SwerveModuleState := {| speed := 0; angle := Rotation2d_zero |}.

Definition Swerve_at_rest : Swerve :=
  {| navX_rotation := Rotation2d_zero;
     moduleStates := quad restState restState restState restState;
     desiredStates := quad (restState, true) (restState, true)
                           (restState, true) (restState, true);
     chassisSpeed := {| vx := 0; vy := 0; omega := 0 |};
     targetRad := 0 |}.

(** A real robot heading 90 degrees, its modules at rest. *)
Definition Drivetrain_at_90 : Drivetrain unit :=
  {| navx_rotation := fromDegrees 90;
     navx_rate := 0;
     gyro_sim := 0;
     odometry := tt;
     module_states := quad restState restState restState restState;
     module_positions :=
       quad {| distance := 0; positionAngle := Rotation2d_zero |}
            {| distance := 0; positionAngle := Rotation2d_zero |}
            {| distance := 0; positionAngle := Rotation2d_zero |}
            {| distance := 0; positionAngle := Rotation2d_zero |};
     desired_states := quad restState restState restState restState;
     field_robot_pose := {| translation := origin; rotation := Rotation2d_zero |} |}.


(** The scenario of the spec: speeds 10, 15, 8, 12 under a limit of 10. *)
Definition scenarioStates : Quad SwerveModuleState :=
  withSpeeds (quad 10 15 8 12)
    (quad Rotation2d_zero Rotation2d_zero Rotation2d_zero Rotation2d_zero).

(** A pose estimator reduced to the pose it holds: odometry leaves it
    alone and a vision measurement replaces it. *)
Definition Drivetrain_tracking : Drivetrain Pose2d :=
  {| navx_rotation := Rotation2d_zero;
     navx_rate := 10;
     gyro_sim := 0;
     odometry := {| translation := origin; rotation := Rotation2d_zero |};
     module_states := quad restState restState restState restState;
     module_positions :=
       quad {| distance := 0; positionAngle := Rotation2d_zero |}
            {| distance := 0; positionAngle := Rotation2d_zero |}
            {| distance := 0; positionAngle := Rotation2d_zero |}
            {| distance := 0; positionAngle := Rotation2d_zero |};
     desired_states := quad restState restState restState restState;
     field_robot_pose := {| translation := origin; rotation := Rotation2d_zero |} |}.

(** What the Limelight answers when it sees no tag. *)
Definition no_tags : PoseEstimate :=
  {| pose := {| translation := {| X := 3; Y := 4 |}; rotation := Rotation2d_zero |};
     timestamp_seconds := 1;
     tag_count := 0 |}.

(** *** The rest of [Swerve] and [Drivetrain], and robot.py *)

(** [Swerve.hockeyStop]: the four calls of [setDesiredState], with the
    default [optimize=True]. *)
Definition hockeyStop (sw : Swerve) : Swerve :=
  {| navX_rotation := navX_rotation sw;
     moduleStates := moduleStates sw;
     desiredStates :=
       quad ({| speed := 0; angle := fromDegrees 225 |}, true)
            ({| speed := 0; angle := fromDegrees (-45) |}, true)
            ({| speed := 0; angle := fromDegrees 135 |}, true)
            ({| speed := 0; angle := fromDegrees 45 |}, true);
     chassisSpeed := chassisSpeed sw;
     targetRad := targetRad sw |}.

Section SwerveOdometry.

(** [SwerveDrive4Odometry] (wpimath): its state and the two operations
    [Swerve] calls.  [Swerve.odometry] is carried beside the record. *)
Context {Odometry : Type}.
Variable odo_update : Odometry -> Rotation2d -> Quad SwerveModulePosition -> Odometry.
Variable odo_resetPosition :
  Odometry -> Rotation2d -> Quad SwerveModulePosition -> Pose2d -> Odometry.
Variable isReal : bool.   (* RobotBase.isReal() *)

(** [Swerve.periodic], with what [getPosition] of the four modules
    returns as an input; the field widget is left out. *)
Definition Swerve_periodic (sw : Swerve) (odometry : Odometry)
  (positions : Quad SwerveModulePosition) : Odometry :=
  if isReal then odo_update odometry (getAngle sw) positions
  else odo_update odometry (fromRadians (targetRad sw)) positions.

Definition resetOdometry (sw : Swerve) (odometry : Odometry)
  (positions : Quad SwerveModulePosition) (pose : Pose2d) : Swerve * Odometry :=
  ({| navX_rotation := navX_rotation sw;
      moduleStates := moduleStates sw;
      desiredStates := desiredStates sw;
      chassisSpeed := chassisSpeed sw;
      targetRad := 0 |},
   odo_resetPosition odometry (getAngle sw) positions pose).

End SwerveOdometry.

Section DrivetrainReset.

Context {Estimator : Type}.
Variable isReal : bool.
Variable est_resetPosition :
  Estimator -> Rotation2d -> Quad SwerveModulePosition -> Pose2d -> Estimator.

(** [reset_yaw].  Modelled from the spec: [navx.reset()] belongs to the
    navX library and is not under src/; section 6 of the spec: the
    heading sensor supports a reset-to-zero operation. *)
Definition reset_yaw (d : Drivetrain Estimator) : Drivetrain Estimator :=
  {| navx_rotation := Rotation2d_zero;
     navx_rate := navx_rate d;
     gyro_sim := 0;
     odometry := odometry d;
     module_states := module_states d;
     module_positions := module_positions d;
     desired_states := desired_states d;
     field_robot_pose := field_robot_pose d |}.

Definition reset_pose (d : Drivetrain Estimator) (pose : Pose2d) : Drivetrain Estimator :=
  {| navx_rotation := navx_rotation d;
     navx_rate := navx_rate d;
     gyro_sim := gyro_sim d;
     odometry :=
       est_resetPosition (odometry d) (get_yaw isReal d) (module_positions d) pose;
     module_states := module_states d;
     module_positions := module_positions d;
     desired_states := desired_states d;
     field_robot_pose := field_robot_pose d |}.

(** [Waffles.autonomousInit] of robot.py on the drivetrain, with
    [DriverStation.getAlliance() == kRed] as an input; the scheduling of
    the selected auto is left out. *)
Definition autonomousInit (d : Drivetrain Estimator) (red : bool) : Drivetrain Estimator :=
  let d := reset_yaw d in
  if red then reset_pose d {| translation := origin; rotation := fromDegrees 180 |}
  else reset_pose d {| translation := origin; rotation := fromDegrees 0 |}.

(** The modules reach the states they were last given. *)
Definition reach (d : Drivetrain Estimator) : Drivetrain Estimator :=
  {| navx_rotation := navx_rotation d;
     navx_rate := navx_rate d;
     gyro_sim := gyro_sim d;
     odometry := odometry d;
     module_states := desired_states d;
     module_positions := module_positions d;
     desired_states := desired_states d;
     field_robot_pose := field_robot_pose d |}.

End DrivetrainReset.

(** Chassis speeds multiplied by a factor. *)
Definition scaleSpeeds (k : R) (s : ChassisSpeeds) : ChassisSpeeds :=
  {| vx := k * vx s; vy := k * vy s; omega := k * omega s |}.

(** *** Kinematics round trip *)

Lemma toState_wheelVelocity (v : R * R) : wheelVelocity (toState v) = v.
Proof.
destruct v as [x y]. unfold wheelVelocity, toState. cbn.
set (h := sqrt (x * x + y * y)).
assert (Hh : h * h = x * x + y * y) by (apply sqrt_sqrt; nra).
destruct (Req_dec_T h 0) as [Z|NZ]; cbn.
- rewrite Z in *. assert (x = 0) by nra. assert (y = 0) by nra. subst. f_equal; ring.
- f_equal; field; exact NZ.
Qed.

(** *** Desaturation *)

Lemma realMaxSpeed_ge (states : Quad SwerveModuleState) (i : Corner) :
  Rabs (speed (qget i states)) <= realMaxSpeed states.
Proof.
unfold realMaxSpeed, Rmax.
destruct i; cbn [qget]; repeat destruct Rle_dec; lra.
Qed.

Lemma realMaxSpeed_attained (states : Quad SwerveModuleState) :
  exists i : Corner, realMaxSpeed states = Rabs (speed (qget i states)).
Proof.
unfold realMaxSpeed, Rmax.
repeat destruct Rle_dec;
  first [ now exists LF | now exists LR | now exists RF | now exists RR ].
Qed.

Lemma qget_qmap {A B : Type} (f : A -> B) (q : Quad A) (i : Corner) :
  qget i (qmap f q) = f (qget i q).
Proof. destruct i; reflexivity. Qed.

Lemma desaturate_factor (states : Quad SwerveModuleState) (maxSpeed : R) (i : Corner) :
  speed (qget i (desaturateWheelSpeeds states maxSpeed))
    = desaturationFactor states maxSpeed * speed (qget i states)
  /\ angle (qget i (desaturateWheelSpeeds states maxSpeed)) = angle (qget i states).
Proof.
unfold desaturateWheelSpeeds, desaturationFactor.
destruct (Rlt_dec maxSpeed (realMaxSpeed states)) as [L|L].
- rewrite qget_qmap. cbn. split; [|reflexivity].
  unfold Rdiv. ring.
- split; [ring | reflexivity].
Qed.

Lemma desaturationFactor_range (states : Quad SwerveModuleState) (maxSpeed : R) :
  0 <= maxSpeed ->
  0 <= desaturationFactor states maxSpeed <= 1.
Proof.
intros Hm. unfold desaturationFactor.
destruct (Rlt_dec maxSpeed (realMaxSpeed states)) as [L|L]; [|lra].
assert (P : 0 < realMaxSpeed states) by lra.
split.
- apply Rmult_le_pos; [lra | left; apply Rinv_0_lt_compat; exact P].
- apply Rmult_le_reg_r with (r := realMaxSpeed states); [exact P|].
  unfold Rdiv. rewrite Rmult_assoc, Rinv_l by lra. lra.
Qed.

Lemma desaturate_in_range (states : Quad SwerveModuleState) (maxSpeed : R) (i : Corner) :
  0 <= maxSpeed ->
  Rabs (speed (qget i (desaturateWheelSpeeds states maxSpeed))) <= maxSpeed.
Proof.
intros Hm.
destruct (desaturate_factor states maxSpeed i) as [E _]. rewrite E.
pose proof (realMaxSpeed_ge states i) as G.
unfold desaturationFactor.
destruct (Rlt_dec maxSpeed (realMaxSpeed states)) as [L|L].
- assert (P : 0 < realMaxSpeed states) by lra.
  rewrite Rabs_mult.
  rewrite (Rabs_pos_eq (maxSpeed / realMaxSpeed states)).
  + apply Rmult_le_reg_r with (r := realMaxSpeed states); [exact P|].
    replace (maxSpeed / realMaxSpeed states * Rabs (speed (qget i states)) * realMaxSpeed states)
      with (maxSpeed * Rabs (speed (qget i states))) by (field; lra).
    apply Rmult_le_compat_l; assumption.
  + apply Rmult_le_pos; [lra | left; apply Rinv_0_lt_compat; exact P].
- rewrite Rmult_1_l. lra.
Qed.

(** C3. For a speed limit [maxSpeed >= 0], desaturation multiplies the
    four speeds by one factor between 0 and 1 and keeps the angles: no
    speed grows in magnitude, the ratios between the speeds are kept,
    every speed ends within the limit, and nothing changes when no speed
    exceeds the limit.  Speeds 10, 15, 8, 12 under a limit of 10 become
    20/3, 10, 16/3, 8.  The function is total: it always returns states. *)
Theorem desaturate_uniform_scaling (states : Quad SwerveModuleState) (maxSpeed : R) :
  0 <= maxSpeed ->
  let out := desaturateWheelSpeeds states maxSpeed in
  (forall i, Rabs (speed (qget i out)) <= Rabs (speed (qget i states)))
  /\ (forall i j, speed (qget i out) * speed (qget j states)
                  = speed (qget j out) * speed (qget i states))
  /\ (exists k, 0 <= k <= 1 /\ forall i, speed (qget i out) = k * speed (qget i states))
  /\ (forall i, angle (qget i out) = angle (qget i states))
  /\ (forall i, Rabs (speed (qget i out)) <= maxSpeed)
  /\ (realMaxSpeed states <= maxSpeed -> out = states)
  /\ (maxSpeed < realMaxSpeed states ->
      forall i, speed (qget i out) = speed (qget i states) / realMaxSpeed states * maxSpeed)
  /\ (forall angles,
      qmap speed (desaturateWheelSpeeds (withSpeeds (quad 10 15 8 12) angles) 10)
      = quad (20 / 3) 10 (16 / 3) 8).
Proof.
intros Hm out.
pose proof (desaturationFactor_range states maxSpeed Hm) as [K0 K1].
assert (F : forall i, speed (qget i out) = desaturationFactor states maxSpeed * speed (qget i states))
  by (intros i; apply desaturate_factor).
split.
{ intros i. rewrite F, Rabs_mult, (Rabs_pos_eq _ K0).
  pose proof (Rabs_pos (speed (qget i states))). nra. }
split.
{ intros i j. rewrite !F. ring. }
split.
{ exists (desaturationFactor states maxSpeed). split; [split; assumption | exact F]. }
split.
{ intros i. apply desaturate_factor. }
split.
{ intros i. apply desaturate_in_range. exact Hm. }
split.
{ intros H. unfold out, desaturateWheelSpeeds.
  destruct (Rlt_dec maxSpeed (realMaxSpeed states)); [lra | reflexivity]. }
split.
{ intros H i. unfold out, desaturateWheelSpeeds.
  destruct (Rlt_dec maxSpeed (realMaxSpeed states)); [|lra].
  rewrite qget_qmap. reflexivity. }
intros angles.
assert (M : realMaxSpeed (withSpeeds (quad 10 15 8 12) angles) = 15).
{ unfold realMaxSpeed, withSpeeds, qzip. cbn.
  rewrite !Rabs_pos_eq by lra. unfold Rmax. repeat destruct Rle_dec; lra. }
unfold desaturateWheelSpeeds. rewrite M.
destruct (Rlt_dec 10 15); [|lra].
unfold withSpeeds, qzip, qmap. cbn. f_equal; field.
Qed.

(** C9. Desaturation is idempotent for a positive limit, so the second
    desaturation, inside [setModuleStates], hands the modules exactly the
    states [drive] had already desaturated. *)
Theorem desaturate_idempotent (states : Quad SwerveModuleState) (maxSpeed : R) :
  0 < maxSpeed ->
  desaturateWheelSpeeds (desaturateWheelSpeeds states maxSpeed) maxSpeed
    = desaturateWheelSpeeds states maxSpeed
  /\ (forall (sw : Swerve) (optimizeAngle : bool),
      desiredStates (setModuleStates maxSpeed sw
                       (desaturateWheelSpeeds states maxSpeed) optimizeAngle)
      = qmap (fun s => (s, optimizeAngle)) (desaturateWheelSpeeds states maxSpeed))
  /\ (forall (isReal : bool) (sw : Swerve) (speeds : ChassisSpeeds),
      desiredStates (drive maxSpeed isReal sw speeds false)
      = qmap (fun s => (s, true))
          (desaturateWheelSpeeds
             (toSwerveModuleStates Swerve_kinematics speeds origin) maxSpeed)).
Proof.
intros Hm.
assert (I : forall s, desaturateWheelSpeeds (desaturateWheelSpeeds s maxSpeed) maxSpeed
                      = desaturateWheelSpeeds s maxSpeed).
{ intros s. unfold desaturateWheelSpeeds at 1.
  destruct (Rlt_dec maxSpeed (realMaxSpeed (desaturateWheelSpeeds s maxSpeed))) as [L|L];
    [|reflexivity].
  exfalso.
  destruct (realMaxSpeed_attained (desaturateWheelSpeeds s maxSpeed)) as [i Hi].
  pose proof (desaturate_in_range s maxSpeed i (Rlt_le _ _ Hm)). lra. }
split; [apply I|]. split.
- intros sw o. unfold setModuleStates. cbn. rewrite I. reflexivity.
- intros isReal sw speeds. unfold drive, setModuleStates.
  destruct isReal; cbn; rewrite I; reflexivity.
Qed.

(** *** Forward kinematics is the least-squares inverse *)

Lemma toChassisSpeeds_least_squares (kinematics : Quad Translation2d)
  (states : Quad SwerveModuleState) (c : ChassisSpeeds) :
  spread kinematics <> 0 ->
  residual kinematics states (toChassisSpeeds kinematics states)
    <= residual kinematics states c.
Proof.
intros D.
destruct kinematics as [[x1 y1] [x2 y2] [x3 y3] [x4 y4]].
destruct states as [s1 s2 s3 s4].
destruct (wheelVelocity s1) as [a1 b1] eqn:E1.
destruct (wheelVelocity s2) as [a2 b2] eqn:E2.
destruct (wheelVelocity s3) as [a3 b3] eqn:E3.
destruct (wheelVelocity s4) as [a4 b4] eqn:E4.
destruct c as [u v w].
unfold residual, toChassisSpeeds, qzip, qmap, qsum, moduleVelocity, origin.
cbn [leftFront leftRear rightFront rightRear X Y vx vy omega fst snd].
rewrite E1, E2, E3, E4. cbn [fst snd].
unfold spread, qmap, qsum in *. cbn [leftFront leftRear rightFront rightRear X Y] in *.
set (sx := x1 + x2 + x3 + x4) in *.
set (sy := y1 + y2 + y3 + y4) in *.
set (dd := 4 * (x1 * x1 + y1 * y1 + (x2 * x2 + y2 * y2) + (x3 * x3 + y3 * y3) + (x4 * x4 + y4 * y4))
           - sx * sx - sy * sy) in *.
set (p := a1 + a2 + a3 + a4).
set (q := b1 + b2 + b3 + b4).
set (t := - y1 * a1 + x1 * b1 + (- y2 * a2 + x2 * b2) + (- y3 * a3 + x3 * b3) + (- y4 * a4 + x4 * b4)).
set (w0 := (4 * t + sy * p - sx * q) / dd).
set (u0 := (p + sy * w0) / 4).
set (v0 := (q - sx * w0) / 4).
(* the normal equations *)
assert (N1 : 4 * u0 - sy * w0 = p) by (unfold u0; field).
assert (N2 : 4 * v0 + sx * w0 = q) by (unfold v0; field).
assert (N3 : - sy * u0 + sx * v0
             + (x1 * x1 + y1 * y1 + (x2 * x2 + y2 * y2) + (x3 * x3 + y3 * y3) + (x4 * x4 + y4 * y4)) * w0
             = t).
{ unfold u0, v0. 
  assert (W : dd * w0 = 4 * t + sy * p - sx * q) by (unfold w0; field; exact D).
  unfold dd in W. lra. }
clearbody w0 u0 v0. 
unfold p, q, t, sx, sy in N1, N2, N3. clear - N1 N2 N3.
set (du := u - u0). set (dv := v - v0). set (dw := w - w0).
assert (U : u = u0 + du) by (unfold du; ring).
assert (V : v = v0 + dv) by (unfold dv; ring).
assert (W : w = w0 + dw) by (unfold dw; ring).
rewrite U, V, W. clearbody du dv dw. clear U V W.
assert (C1 : du * (4 * u0 - (y1 + y2 + y3 + y4) * w0 - (a1 + a2 + a3 + a4)) = 0)
  by (rewrite N1; ring).
assert (C2 : dv * (4 * v0 + (x1 + x2 + x3 + x4) * w0 - (b1 + b2 + b3 + b4)) = 0)
  by (rewrite N2; ring).
assert (C3 : dw * (- (y1 + y2 + y3 + y4) * u0 + (x1 + x2 + x3 + x4) * v0
                   + (x1 * x1 + y1 * y1 + (x2 * x2 + y2 * y2) + (x3 * x3 + y3 * y3)
                      + (x4 * x4 + y4 * y4)) * w0
                   - (- y1 * a1 + x1 * b1 + (- y2 * a2 + x2 * b2) + (- y3 * a3 + x3 * b3)
                      + (- y4 * a4 + x4 * b4))) = 0)
  by (rewrite N3; ring).
pose proof (Rle_0_sqr (du - dw * y1)). pose proof (Rle_0_sqr (dv + dw * x1)).
pose proof (Rle_0_sqr (du - dw * y2)). pose proof (Rle_0_sqr (dv + dw * x2)).
pose proof (Rle_0_sqr (du - dw * y3)). pose proof (Rle_0_sqr (dv + dw * x3)).
pose proof (Rle_0_sqr (du - dw * y4)). pose proof (Rle_0_sqr (dv + dw * x4)).
unfold Rsqr in *. lra.
Qed.

(** C2. For four module locations that are not all one point, and for
    the locations of [Swerve.kinematics] in particular, forward kinematics
    undoes inverse kinematics on every chassis velocity.  Over the reals
    the round trip is exact; the rounding of floats is not modelled. *)
Theorem kinematics_round_trip (kinematics : Quad Translation2d) (v : ChassisSpeeds) :
  spread kinematics <> 0 ->
  toChassisSpeeds kinematics (toSwerveModuleStates kinematics v origin) = v.
Proof.
intros D. destruct kinematics as [[x1 y1] [x2 y2] [x3 y3] [x4 y4]], v as [a b w].
unfold toChassisSpeeds, toSwerveModuleStates, qzip, qmap, qsum.
cbn [leftFront leftRear rightFront rightRear].
rewrite !toState_wheelVelocity.
unfold spread, qmap, qsum in *. cbn in *.
f_equal; field; exact D.
Qed.

Lemma Swerve_kinematics_spread : spread Swerve_kinematics = 32.
Proof. unfold spread, Swerve_kinematics, qmap, qsum. cbn. ring. Qed.

Lemma kinematics_round_trip_witness :
  spread Swerve_kinematics <> 0 /\
  forall v : ChassisSpeeds,
    toChassisSpeeds Swerve_kinematics (toSwerveModuleStates Swerve_kinematics v origin) = v.
Proof.
assert (D : spread Swerve_kinematics <> 0) by (rewrite Swerve_kinematics_spread; lra).
split; [exact D|].
intros v. exact (kinematics_round_trip Swerve_kinematics v D).
Defined.

(** *** Pose fusion guard *)

Section Fusion.

Context {Estimator StdDevs : Type}.
Variable k_standard_deviations : StdDevs.
Variable isReal : bool.
Variable est_update : Estimator -> Rotation2d -> Quad SwerveModulePosition -> Estimator.
Variable est_setVisionMeasurementStdDevs : Estimator -> StdDevs -> Estimator.
Variable est_addVisionMeasurement : Estimator -> Pose2d -> R -> Estimator.
Variable est_getEstimatedPosition : Estimator -> Pose2d.

Lemma vision_guard_spec (d : Drivetrain Estimator) (mega_tag2 : PoseEstimate) :
  vision_guard isReal d mega_tag2 = true <->
  Rabs (navx_rate d) < 720 /\ (0 < tag_count mega_tag2)%Z /\ isReal = true.
Proof.
unfold vision_guard. rewrite !andb_true_iff, Z.ltb_lt.
destruct (Rlt_dec (Rabs (navx_rate d)) 720); intuition congruence.
Qed.

(** C4. In [periodic] the estimator leaves the vision step changed only
    if the absolute angular rate is below 720 and the Limelight reports
    at least one tag (and the robot is real); when these hold the
    measurement is added, and with a tag count of zero the estimator and
    the pose it reports are those the odometry update left. *)
Theorem periodic_vision_guard (d : Drivetrain Estimator) (mega_tag2 : PoseEstimate) :
  let before := est_update (odometry d) (get_yaw isReal d) (module_positions d) in
  let next :=
    periodic k_standard_deviations isReal est_update est_setVisionMeasurementStdDevs
      est_addVisionMeasurement est_getEstimatedPosition d mega_tag2 in
  let after := odometry next in
  (after <> before -> Rabs (navx_rate d) < 720 /\ (1 <= tag_count mega_tag2)%Z)
  /\ (Rabs (navx_rate d) < 720 -> (1 <= tag_count mega_tag2)%Z -> isReal = true ->
      after = est_addVisionMeasurement
                (est_setVisionMeasurementStdDevs before k_standard_deviations)
                (pose mega_tag2) (timestamp_seconds mega_tag2))
  /\ (720 <= Rabs (navx_rate d) -> after = before)
  /\ (tag_count mega_tag2 = 0%Z ->
      after = before
      /\ est_getEstimatedPosition after = est_getEstimatedPosition before
      /\ field_robot_pose next = est_getEstimatedPosition before).
Proof.
intros before next after.
pose proof (vision_guard_spec d mega_tag2) as G.
assert (A : after = fuse_vision k_standard_deviations isReal
                      est_setVisionMeasurementStdDevs est_addVisionMeasurement
                      d before mega_tag2) by reflexivity.
assert (P : field_robot_pose next = est_getEstimatedPosition after)
  by reflexivity.
unfold fuse_vision in A.
destruct (vision_guard isReal d mega_tag2) eqn:E.
- destruct (proj1 G eq_refl) as (Hr & Ht & Hreal).
  split; [intros _; split; [exact Hr | lia]|].
  split; [intros _ _ _; exact A|].
  split; [intros H; exfalso; lra|].
  intros H; exfalso; lia.
- split; [intros H; exfalso; apply H; exact A|].
  split.
  { intros Hr Ht Hreal. exfalso.
    assert (X : false = true) by (apply G; repeat split; [exact Hr | lia | exact Hreal]).
    discriminate X. }
  split; [intros _; exact A|].
  intros _. split; [exact A|]. split; [rewrite A; reflexivity|].
  rewrite P, A. reflexivity.
Qed.

End Fusion.

(** *** Where the reported robot speed comes from *)

(** C7, as the code has it.  [Drivetrain.get_robot_speed] is the forward
    kinematics of the states the four modules measure: it depends on
    nothing else the drivetrain holds, and a drive command does not
    change it.  [Swerve.getChassisSpeeds] returns the velocity last
    passed to [drive], as it was passed, whatever the modules measure. *)
Theorem robot_speed_sources {Estimator : Type} (kinematics : Quad Translation2d)
  (k_max_attainable_speed : R) (isReal : bool)
  (discretize : ChassisSpeeds -> R -> ChassisSpeeds) (d : Drivetrain Estimator)
  (kMaxSpeed : R) (sw : Swerve) (speeds : ChassisSpeeds) (fieldRelative : bool)
  (center_of_rotation : Translation2d) :
  get_robot_speed kinematics d = toChassisSpeeds kinematics (module_states d)
  /\ (forall d' : Drivetrain Estimator,
      module_states d' = module_states d ->
      get_robot_speed kinematics d' = get_robot_speed kinematics d)
  /\ get_robot_speed kinematics
       (drive_robot_centric kinematics k_max_attainable_speed discretize d speeds
          center_of_rotation)
     = get_robot_speed kinematics d
  /\ get_robot_speed kinematics
       (drive_field_relative kinematics k_max_attainable_speed isReal discretize d speeds
          center_of_rotation)
     = get_robot_speed kinematics d
  /\ getChassisSpeeds (drive kMaxSpeed isReal sw speeds fieldRelative) = speeds
  /\ moduleStates (drive kMaxSpeed isReal sw speeds fieldRelative) = moduleStates sw.
Proof.
split; [reflexivity|]. split.
- intros d' E. unfold get_robot_speed. rewrite E. reflexivity.
- split; [reflexivity|]. split; [reflexivity|].
  unfold drive, setModuleStates, getChassisSpeeds. destruct isReal; split; reflexivity.
Qed.

Lemma toChassisSpeeds_at_rest :
  toChassisSpeeds Swerve_kinematics (quad restState restState restState restState)
  = {| vx := 0; vy := 0; omega := 0 |}.
Proof.
unfold toChassisSpeeds. rewrite Swerve_kinematics_spread.
unfold Swerve_kinematics, restState, wheelVelocity, qzip, qmap, qsum. cbn.
f_equal; field.
Qed.

(** C7 fails for [Swerve.getChassisSpeeds]: after [drive] is given 1 m/s
    forwards while the four modules still measure no motion, it returns
    1 m/s, where forward kinematics of the measured states gives zero. *)
Lemma getChassisSpeeds_counterexample :
  getChassisSpeeds (drive 4 true Swerve_at_rest {| vx := 1; vy := 0; omega := 0 |} false)
  <> toChassisSpeeds Swerve_kinematics
       (moduleStates (drive 4 true Swerve_at_rest {| vx := 1; vy := 0; omega := 0 |} false)).
Proof.
change (moduleStates (drive 4 true Swerve_at_rest {| vx := 1; vy := 0; omega := 0 |} false))
  with (quad restState restState restState restState).
rewrite toChassisSpeeds_at_rest.
change (getChassisSpeeds (drive 4 true Swerve_at_rest {| vx := 1; vy := 0; omega := 0 |} false))
  with {| vx := 1; vy := 0; omega := 0 |}.
intros H. apply (f_equal vx) in H. cbn in H. lra.
Qed.

(** *** Field-relative driving *)


Lemma fromDegrees_90 : fromDegrees 90 = {| Cos := 0; Sin := 1 |}.
Proof.
unfold fromDegrees, fromRadians.
replace (90 * PI / 180) with (PI / 2) by field.
now rewrite cos_PI2, sin_PI2.
Qed.





Lemma fromFieldRelativeSpeeds_zero (s : ChassisSpeeds) :
  fromFieldRelativeSpeeds s Rotation2d_zero = s.
Proof.
destruct s as [a b w]. unfold fromFieldRelativeSpeeds, Rotation2d_zero. cbn [vx vy omega Cos Sin].
f_equal; ring.
Qed.



Lemma desaturationFactor_pos (states : Quad SwerveModuleState) (maxSpeed : R) :
  0 < maxSpeed -> 0 < desaturationFactor states maxSpeed.
Proof.
intros Hm. unfold desaturationFactor.
destruct (Rlt_dec maxSpeed (realMaxSpeed states)) as [L|L]; [|lra].
apply Rmult_lt_0_compat; [exact Hm | apply Rinv_0_lt_compat; lra].
Qed.

Lemma wheelVelocity_desaturate (states : Quad SwerveModuleState) (maxSpeed : R) (i : Corner) :
  wheelVelocity (qget i (desaturateWheelSpeeds states maxSpeed))
  = (desaturationFactor states maxSpeed * fst (wheelVelocity (qget i states)),
     desaturationFactor states maxSpeed * snd (wheelVelocity (qget i states))).
Proof.
destruct (desaturate_factor states maxSpeed i) as [E A].
unfold wheelVelocity. rewrite E, A. cbn [fst snd]. f_equal; ring.
Qed.


(** *** Concrete inputs *)

Lemma desaturate_uniform_scaling_witness :
  0 <= 10 /\
  (forall i, Rabs (speed (qget i (desaturateWheelSpeeds scenarioStates 10)))
             <= Rabs (speed (qget i scenarioStates)))
  /\ qmap speed (desaturateWheelSpeeds scenarioStates 10) = quad (20 / 3) 10 (16 / 3) 8.
Proof.
assert (H : 0 <= 10) by lra.
split; [exact H|].
destruct (desaturate_uniform_scaling scenarioStates 10 H)
  as (N & _ & _ & _ & _ & _ & _ & S).
split; [exact N|]. apply S.
Defined.

Lemma desaturate_idempotent_witness :
  0 < 10 /\
  desaturateWheelSpeeds (desaturateWheelSpeeds scenarioStates 10) 10
  = desaturateWheelSpeeds scenarioStates 10.
Proof.
assert (H : 0 < 10) by lra.
split; [exact H|].
exact (proj1 (desaturate_idempotent scenarioStates 10 H)).
Defined.

Lemma periodic_vision_guard_witness :
  tag_count no_tags = 0%Z /\
  odometry
    (periodic tt true (fun e _ _ => e) (fun e (_ : unit) => e) (fun _ p _ => p) (fun e => e)
       Drivetrain_tracking no_tags)
  = odometry Drivetrain_tracking.
Proof.
split; [reflexivity|].
exact (proj1 (proj2 (proj2 (proj2
         (periodic_vision_guard tt true (fun e _ _ => e) (fun e (_ : unit) => e)
            (fun _ p _ => p) (fun e => e) Drivetrain_tracking no_tags))) eq_refl)).
Defined.

(** With one tag in view the same estimator takes the vision pose. *)
Example periodic_fuses_one_tag :
  odometry
    (periodic tt true (fun e _ _ => e) (fun e (_ : unit) => e) (fun _ p _ => p) (fun e => e)
       Drivetrain_tracking
       {| pose := pose no_tags; timestamp_seconds := 1; tag_count := 1 |})
  = pose no_tags.
Proof.
unfold periodic, fuse_vision, vision_guard. cbn [navx_rate Drivetrain_tracking tag_count].
destruct (Rlt_dec (Rabs 10) 720) as [L|L].
- reflexivity.
- exfalso. apply L. rewrite Rabs_pos_eq; lra.
Qed.

(** *** Trigonometry of the hard-coded angles *)

Lemma fromDegrees_0 : fromDegrees 0 = Rotation2d_zero.
Proof.
unfold fromDegrees, fromRadians, Rotation2d_zero.
replace (0 * PI / 180) with 0 by field. now rewrite cos_0, sin_0.
Qed.

(** On the diagonals sine and cosine agree up to sign. *)
Lemma diagonal_angles :
  Sin (fromDegrees 45) = Cos (fromDegrees 45)
  /\ Sin (fromDegrees 225) = Cos (fromDegrees 225)
  /\ Sin (fromDegrees 135) = - Cos (fromDegrees 135)
  /\ Sin (fromDegrees (-45)) = - Cos (fromDegrees (-45)).
Proof.
unfold fromDegrees, fromRadians. cbn [Sin Cos].
replace (45 * PI / 180) with (PI / 4) by field.
replace (225 * PI / 180) with (PI / 4 + PI) by field.
replace (135 * PI / 180) with (- (PI / 4) + PI) by field.
replace (-45 * PI / 180) with (- (PI / 4)) by field.
rewrite !neg_sin, !neg_cos, !sin_neg, !cos_neg.
pose proof sin_cos_PI4 as E. repeat split; lra.
Qed.

(** X8. [hockeyStop] asks every module for speed 0 with [optimize] on
    and steers every wheel along the line through the robot center and
    that module's location in [Swerve.kinematics] (an X across the
    chassis); the forward kinematics of the commanded states is zero. *)
Theorem hockeyStop_locks_wheels (sw : Swerve) (i : Corner) :
  let command := qget i (desiredStates (hockeyStop sw)) in
  let location := qget i Swerve_kinematics in
  speed (fst command) = 0
  /\ snd command = true
  /\ X location * Sin (angle (fst command)) - Y location * Cos (angle (fst command)) = 0
  /\ toChassisSpeeds Swerve_kinematics (qmap fst (desiredStates (hockeyStop sw)))
     = {| vx := 0; vy := 0; omega := 0 |}
  /\ chassisSpeed (hockeyStop sw) = chassisSpeed sw.
Proof.
intros command location.
destruct diagonal_angles as (A45 & A225 & A135 & Am45).
split; [destruct i; reflexivity|]. split; [destruct i; reflexivity|]. split.
- unfold command, location. destruct i; cbn [qget hockeyStop desiredStates Swerve_kinematics
    leftFront leftRear rightFront rightRear fst X Y angle]; lra.
- split; [|reflexivity].
  unfold toChassisSpeeds. rewrite Swerve_kinematics_spread.
  unfold hockeyStop, Swerve_kinematics, wheelVelocity, qzip, qmap, qsum.
  cbn [desiredStates leftFront leftRear rightFront rightRear fst snd speed angle X Y].
  f_equal; field.
Qed.

(** *** Simulated heading of [Swerve] *)

Lemma degrees_radians_differ (t : R) :
  0 < t -> t <= PI -> fromDegrees t <> fromRadians t.
Proof.
intros Hpos Hpi E.
apply (f_equal Cos) in E. unfold fromDegrees, fromRadians in E. cbn [Cos] in E.
pose proof PI_RGT_0 as P0. pose proof PI_4 as P4.
assert (Hlt : t * PI / 180 < t) by nra.
assert (H0 : 0 <= t * PI / 180) by nra.
pose proof (cos_decreasing_1 (t * PI / 180) t H0 (Rle_trans _ _ _ (Rlt_le _ _ Hlt) Hpi)
              (Rlt_le _ _ Hpos) Hpi Hlt) as D.
lra.
Qed.

Lemma drive_iter_targetRad (kMaxSpeed : R) (isReal : bool) (sw : Swerve)
  (speeds : ChassisSpeeds) (fieldRelative : bool) (n : nat) :
  targetRad (Nat.iter n (fun s => drive kMaxSpeed isReal s speeds fieldRelative) sw)
  = if isReal then targetRad sw else targetRad sw + INR n * (omega speeds / 50).
Proof.
induction n as [|n IH].
- cbn [Nat.iter nat_rect INR]. destruct isReal; [reflexivity | ring].
- rewrite Nat.iter_succ.
  set (s := Nat.iter n _ sw) in *.
  assert (T : targetRad (drive kMaxSpeed isReal s speeds fieldRelative)
              = if isReal then targetRad s else targetRad s + omega speeds / 50).
  { unfold drive, setModuleStates. destruct isReal, fieldRelative; reflexivity. }
  rewrite T, IH, S_INR. destruct isReal; [reflexivity | ring].
Qed.

(** X9. In simulation [Swerve.drive] turns a field-relative command by
    [targetRad] read as degrees, while [Swerve.periodic] gives the
    odometry [targetRad] read as radians: for every [targetRad] in
    (0, pi] the two headings differ.  After [resetOdometry], which sets
    [targetRad] to 0, they agree and a field-relative command is driven
    as the robot-centric one. *)
Theorem Swerve_simulated_heading {Odometry : Type}
  (odo_update : Odometry -> Rotation2d -> Quad SwerveModulePosition -> Odometry)
  (odo_resetPosition :
     Odometry -> Rotation2d -> Quad SwerveModulePosition -> Pose2d -> Odometry)
  (kMaxSpeed : R) (sw : Swerve) (odometry : Odometry)
  (positions : Quad SwerveModulePosition) (speeds : ChassisSpeeds) (pose : Pose2d) :
  desiredStates (drive kMaxSpeed false sw speeds true)
    = desiredStates
        (drive kMaxSpeed false sw
           (fromFieldRelativeSpeeds speeds (fromDegrees (targetRad sw))) false)
  /\ Swerve_periodic odo_update false sw odometry positions
     = odo_update odometry (fromRadians (targetRad sw)) positions
  /\ (0 < targetRad sw -> targetRad sw <= PI ->
      fromDegrees (targetRad sw) <> fromRadians (targetRad sw))
  /\ (let sw0 := fst (resetOdometry odo_resetPosition sw odometry positions pose) in
      fromDegrees (targetRad sw0) = fromRadians (targetRad sw0)
      /\ desiredStates (drive kMaxSpeed false sw0 speeds true)
         = desiredStates (drive kMaxSpeed false sw0 speeds false)).
Proof.
split; [reflexivity|]. split; [reflexivity|]. split.
- apply degrees_radians_differ.
- cbn [resetOdometry fst targetRad]. split.
  + rewrite fromDegrees_0. unfold fromRadians, Rotation2d_zero. now rewrite cos_0, sin_0.
  + unfold drive. cbn [targetRad]. rewrite fromDegrees_0, fromFieldRelativeSpeeds_zero.
    reflexivity.
Qed.

(** X10. In simulation [n] calls of [Swerve.drive] at an angular rate
    [omega] advance [targetRad] by [n * omega / 50], the angle turned in
    [n] periods of 20 ms; on a real robot [drive] never changes it.
    Every call stores its command and leaves the measured module states
    alone. *)
Theorem Swerve_drive_integrates_heading (kMaxSpeed : R) (isReal : bool) (sw : Swerve)
  (speeds : ChassisSpeeds) (fieldRelative : bool) (n : nat) :
  let run := Nat.iter n (fun s => drive kMaxSpeed isReal s speeds fieldRelative) sw in
  (isReal = false -> targetRad run = targetRad sw + INR n * (omega speeds * (2 / 100)))
  /\ (isReal = true -> targetRad run = targetRad sw)
  /\ ((0 < n)%nat -> chassisSpeed run = speeds)
  /\ moduleStates run = moduleStates sw.
Proof.
intros run.
pose proof (drive_iter_targetRad kMaxSpeed isReal sw speeds fieldRelative n) as T.
fold run in T.
split; [intros ->; rewrite T; field|]. split; [intros ->; exact T|]. split.
- intros Hn. unfold run. destruct n as [|n]; [lia|].
  rewrite Nat.iter_succ.
  unfold drive, setModuleStates. destruct isReal; reflexivity.
- unfold run. clear T run. induction n as [|n IH]; [reflexivity|].
  rewrite Nat.iter_succ. rewrite <- IH.
  unfold drive, setModuleStates. destruct isReal; reflexivity.
Qed.

(** *** Heading and speed of [Drivetrain] *)

Lemma get_yaw_reset_yaw {Estimator : Type} (isReal : bool) (d : Drivetrain Estimator) :
  get_yaw isReal (reset_yaw d) = Rotation2d_zero.
Proof.
unfold get_yaw, reset_yaw. cbn [navx_rotation gyro_sim].
destruct isReal; [reflexivity | apply fromDegrees_0].
Qed.

(** X11. After [reset_yaw], and after [autonomousInit] whatever the
    alliance, the heading reads zero on a real robot and in simulation,
    so a field-relative command is driven exactly as the robot-centric
    one; [autonomousInit] resets the estimator with that zero heading to
    the field origin, facing 180 degrees for red and 0 degrees for blue. *)
Theorem autonomousInit_heading {Estimator : Type} (kinematics : Quad Translation2d)
  (k_max_attainable_speed : R) (isReal : bool)
  (discretize : ChassisSpeeds -> R -> ChassisSpeeds)
  (est_resetPosition :
     Estimator -> Rotation2d -> Quad SwerveModulePosition -> Pose2d -> Estimator)
  (d : Drivetrain Estimator) (red : bool) (speeds : ChassisSpeeds)
  (center_of_rotation : Translation2d) :
  let d0 := reset_yaw d in
  let d1 := autonomousInit isReal est_resetPosition d red in
  get_yaw isReal d0 = Rotation2d_zero
  /\ get_yaw isReal d1 = Rotation2d_zero
  /\ drive_field_relative kinematics k_max_attainable_speed isReal discretize d0
       speeds center_of_rotation
     = drive_robot_centric kinematics k_max_attainable_speed discretize d0
         speeds center_of_rotation
  /\ drive_field_relative kinematics k_max_attainable_speed isReal discretize d1
       speeds center_of_rotation
     = drive_robot_centric kinematics k_max_attainable_speed discretize d1
         speeds center_of_rotation
  /\ odometry d1
     = est_resetPosition (odometry d) Rotation2d_zero (module_positions d)
         {| translation := origin;
            rotation := if red then {| Cos := -1; Sin := 0 |} else Rotation2d_zero |}.
Proof.
intros d0 d1.
assert (Y0 : get_yaw isReal d0 = Rotation2d_zero) by apply get_yaw_reset_yaw.
assert (Y1 : get_yaw isReal d1 = Rotation2d_zero).
{ unfold d1, autonomousInit. destruct red; exact Y0. }
assert (F : forall d' : Drivetrain Estimator, get_yaw isReal d' = Rotation2d_zero ->
            drive_field_relative kinematics k_max_attainable_speed isReal discretize d'
              speeds center_of_rotation
            = drive_robot_centric kinematics k_max_attainable_speed discretize d'
                speeds center_of_rotation).
{ intros d' Y. unfold drive_field_relative, drive_robot_centric.
  rewrite Y, fromFieldRelativeSpeeds_zero. reflexivity. }
split; [exact Y0|]. split; [exact Y1|]. split; [apply F; exact Y0|].
split; [apply F; exact Y1|].
unfold d1, autonomousInit, reset_pose. fold d0. rewrite Y0.
destruct red; cbn [odometry]; [|rewrite fromDegrees_0; reflexivity].
do 2 f_equal. unfold fromDegrees, fromRadians.
replace (180 * PI / 180) with PI by field. now rewrite cos_PI, sin_PI.
Qed.

(** X12. In simulation one drive call turns the simulated heading by the
    commanded angular rate times 0.02 s: [gyro_sim] is kept in degrees
    and [omega_dps] converts the rate, so the heading advances by
    [omega * 0.02] radians, in both drive modes; on a real robot driving
    does not change the heading read. *)
Theorem simulated_heading_advances {Estimator : Type} (kinematics : Quad Translation2d)
  (k_max_attainable_speed : R) (discretize : ChassisSpeeds -> R -> ChassisSpeeds)
  (d : Drivetrain Estimator) (speeds : ChassisSpeeds) (center_of_rotation : Translation2d) :
  let w := omega (discretize speeds (2 / 100)) in
  get_yaw false
    (drive_robot_centric kinematics k_max_attainable_speed discretize d speeds
       center_of_rotation)
    = fromRadians (gyro_sim d * PI / 180 + w * (2 / 100))
  /\ get_yaw false
       (drive_field_relative kinematics k_max_attainable_speed false discretize d speeds
          center_of_rotation)
     = fromRadians (gyro_sim d * PI / 180 + w * (2 / 100))
  /\ get_yaw true
       (drive_field_relative kinematics k_max_attainable_speed true discretize d speeds
          center_of_rotation)
     = get_yaw true d.
Proof.
intros w.
assert (E : forall g, fromDegrees (g + w * 180 / PI * (2 / 100))
                      = fromRadians (g * PI / 180 + w * (2 / 100))).
{ intros g. unfold fromDegrees. f_equal. field. apply PI_neq0. }
split; [|split; [|reflexivity]].
- unfold get_yaw, drive_robot_centric, simulate_gyro, set_desired_module_states, omega_dps.
  cbn [gyro_sim]. apply E.
- unfold get_yaw, drive_field_relative, simulate_gyro, set_desired_module_states, omega_dps,
    fromFieldRelativeSpeeds.
  cbn [gyro_sim omega]. apply E.
Qed.

(** X13. In simulation [periodic] does not depend on what the Limelight
    answers: the estimator only takes the odometry update at the
    simulated heading.  On a real robot two answers without tags give
    the same result. *)
Theorem periodic_ignores_vision {Estimator StdDevs : Type}
  (k_standard_deviations : StdDevs)
  (est_update : Estimator -> Rotation2d -> Quad SwerveModulePosition -> Estimator)
  (est_setVisionMeasurementStdDevs : Estimator -> StdDevs -> Estimator)
  (est_addVisionMeasurement : Estimator -> Pose2d -> R -> Estimator)
  (est_getEstimatedPosition : Estimator -> Pose2d)
  (d : Drivetrain Estimator) (a b : PoseEstimate) :
  let run isReal :=
    periodic k_standard_deviations isReal est_update est_setVisionMeasurementStdDevs
      est_addVisionMeasurement est_getEstimatedPosition d in
  run false a = run false b
  /\ odometry (run false a)
     = est_update (odometry d) (fromDegrees (gyro_sim d)) (module_positions d)
  /\ ((tag_count a <= 0)%Z -> (tag_count b <= 0)%Z -> run true a = run true b).
Proof.
intros run.
assert (S : forall m, fuse_vision k_standard_deviations false est_setVisionMeasurementStdDevs
                        est_addVisionMeasurement d
                        (est_update (odometry d) (get_yaw false d) (module_positions d)) m
                      = est_update (odometry d) (get_yaw false d) (module_positions d)).
{ intros m. unfold fuse_vision, vision_guard. rewrite andb_false_r. reflexivity. }
assert (T : forall m, (tag_count m <= 0)%Z ->
              fuse_vision k_standard_deviations true est_setVisionMeasurementStdDevs
                est_addVisionMeasurement d
                (est_update (odometry d) (get_yaw true d) (module_positions d)) m
              = est_update (odometry d) (get_yaw true d) (module_positions d)).
{ intros m Hm. unfold fuse_vision, vision_guard.
  replace (0 <? tag_count m)%Z with false by (symmetry; apply Z.ltb_ge; exact Hm).
  rewrite andb_false_r. reflexivity. }
split; [|split].
- unfold run, periodic. rewrite !S. reflexivity.
- unfold run, periodic. cbn [odometry]. rewrite S. reflexivity.
- intros Ha Hb. unfold run, periodic. rewrite (T a Ha), (T b Hb). reflexivity.
Qed.

(** X14. When the modules reach the states a robot-centric command gave
    them (center of rotation at the robot center), [get_robot_speed]
    reports the discretized command multiplied by the desaturation
    factor, a number in (0, 1]: the same direction of travel and turn,
    never faster than commanded. *)
Theorem reached_speed_is_scaled_command {Estimator : Type} (kinematics : Quad Translation2d)
  (k_max_attainable_speed : R) (discretize : ChassisSpeeds -> R -> ChassisSpeeds)
  (d : Drivetrain Estimator) (speeds : ChassisSpeeds) :
  spread kinematics <> 0 ->
  0 < k_max_attainable_speed ->
  let command := discretize speeds (2 / 100) in
  let k := desaturationFactor (toSwerveModuleStates kinematics command origin)
             k_max_attainable_speed in
  0 < k <= 1
  /\ get_robot_speed kinematics
       (reach (drive_robot_centric kinematics k_max_attainable_speed discretize d speeds
                 origin))
     = scaleSpeeds k command.
Proof.
intros D Hm command k.
split.
{ split; [apply desaturationFactor_pos; exact Hm|].
  apply desaturationFactor_range. lra. }
unfold get_robot_speed, reach, drive_robot_centric, simulate_gyro, set_desired_module_states.
cbn [module_states desired_states]. fold command.
set (states := toSwerveModuleStates kinematics command origin).
assert (W : forall i, wheelVelocity (qget i (desaturateWheelSpeeds states k_max_attainable_speed))
                      = (k * fst (moduleVelocity (qget i kinematics) origin command),
                         k * snd (moduleVelocity (qget i kinematics) origin command))).
{ intros i. rewrite wheelVelocity_desaturate. fold k.
  unfold states, toSwerveModuleStates. rewrite qget_qmap, toState_wheelVelocity. reflexivity. }
pose proof (W LF) as W1. pose proof (W LR) as W2. pose proof (W RF) as W3. pose proof (W RR) as W4.
cbn [qget] in W1, W2, W3, W4.
unfold toChassisSpeeds, qzip, qmap, qsum.
cbn [leftFront leftRear rightFront rightRear].
rewrite W1, W2, W3, W4. cbn [fst snd].
clearbody k. clear W W1 W2 W3 W4 states.
destruct kinematics as [[x1 y1] [x2 y2] [x3 y3] [x4 y4]], command as [a b w].
unfold spread, qmap, qsum, moduleVelocity, origin, scaleSpeeds in *.
cbn [leftFront leftRear rightFront rightRear X Y vx vy omega fst snd] in *.
f_equal; field; exact D.
Qed.

(** *** Instances of the hypotheses *)

Lemma reached_speed_is_scaled_command_witness :
  spread Swerve_kinematics <> 0 /\ 0 < 4 /\
  exists k : R,
    0 < k <= 1
    /\ get_robot_speed Swerve_kinematics
         (reach (drive_robot_centric Swerve_kinematics 4 discretize_pose_log
                   Drivetrain_at_90 {| vx := 3; vy := 4; omega := 0 |} origin))
       = scaleSpeeds k (discretize_pose_log {| vx := 3; vy := 4; omega := 0 |} (2 / 100)).
Proof.
assert (D : spread Swerve_kinematics <> 0) by (rewrite Swerve_kinematics_spread; lra).
assert (M : 0 < 4) by lra.
split; [exact D|]. split; [exact M|].
eexists.
exact (reached_speed_is_scaled_command Swerve_kinematics 4 discretize_pose_log
         Drivetrain_at_90 {| vx := 3; vy := 4; omega := 0 |} D M).
Defined.

End Chassis.
